(** * A3C agent (chainerrl/agents/a3c.py): trajectory window, returns,
      loss scaling and the agent control surface.

    Scalars (rewards, values, log-probabilities, losses, the discount
    factor ...) are modelled as exact rationals [Q]; statements about
    computed numbers use [==] on [Q].  Step counters and dictionary keys
    are Python ints, modelled as [Z] (the key [t - 1] is [-1] on the first
    call).  The five [past_*] dictionaries are finite maps keyed by [Z].

    The function approximator, the optimizer and the shared model are
    external collaborators: they appear as an interface ([A3CModel]) whose
    operations are arbitrary functions. *)

From Stdlib Require Import ZArith QArith Qminmax Qpower Lia Lqa.
From stdpp Require Import base gmap list.

Open Scope Q_scope.

(** ** Exceptions and the state-and-exception monad *)

Inductive exn : Type :=
| AssertionError
| KeyError.

Inductive outcome (A : Type) : Type :=
| Ok (a : A)
| Raise (e : exn).

Arguments Ok {A} a.
Arguments Raise {A} e.

(** A computation on a mutable object of type [St]: it yields a value or
    raises, and in both cases leaves the object in some state. *)
Definition M (St A : Type) : Type := St -> outcome A * St.

Definition ret {St A} (a : A) : M St A := fun s => (Ok a, s).

Definition bind {St A B} (c : M St A) (k : A -> M St B) : M St B :=
  fun s =>
    match c s with
    | (Ok a, s') => k a s'
    | (Raise e, s') => (Raise e, s')
    end.

Definition raise {St A} (e : exn) : M St A := fun s => (Raise e, s).

Definition gets {St A} (f : St -> A) : M St A := fun s => (Ok (f s), s).

Definition modify {St} (f : St -> St) : M St unit := fun s => (Ok tt, f s).

Definition assert {St} (b : bool) : M St unit :=
  if b then ret tt else raise AssertionError.

(** [d[k]] on a Python dict: [KeyError] when the key is absent. *)
Definition getitem {St V} (d : St -> gmap Z V) (k : Z) : M St V :=
  fun s =>
    match d s !! k with
    | Some v => (Ok v, s)
    | None => (Raise KeyError, s)
    end.

Declare Scope a3c_scope.
Delimit Scope a3c_scope with a3c.

Notation "x <- c1 ;; c2" := (bind c1 (fun x => c2))
  (at level 100, c1 at next level, right associativity) : a3c_scope.
Notation "c1 ;;; c2" := (bind c1 (fun _ => c2))
  (at level 100, right associativity) : a3c_scope.

Open Scope a3c_scope.

(** ** The model interface *)

(** What [pi_and_v] returns as its first component: an action
    distribution.  Sampling draws on external randomness [Seed]. *)
Record Distribution (Action Seed : Type) : Type := {
  sample : Seed -> Action;
  log_prob : Action -> Q;
  entropy : Q;
  most_probable : Action
}.

Arguments sample {Action Seed} _ _.
Arguments log_prob {Action Seed} _ _.
Arguments entropy {Action Seed} _.
Arguments most_probable {Action Seed} _.

(** One iteration of the loop of [update], as it was computed. *)
Record step_entry : Type := {
  e_index : Z;          (* i *)
  e_reward : Q;         (* past_rewards[i] *)
  e_baseline : Q;       (* average_reward as read in this iteration *)
  e_value : Q;          (* past_values[i] *)
  e_R : Q;              (* R after this iteration *)
  e_advantage : Q       (* R - v *)
}.

(** What one call of [update] computed. *)
Record update_record : Type := {
  u_bootstrap : Q;             (* R before the loop *)
  u_steps : list step_entry;   (* iterations, in processing order *)
  u_pi_loss : Q;               (* pi_loss after all transforms *)
  u_v_loss : Q;                (* v_loss after all transforms *)
  u_total_loss : Q
}.

(** [Model] stands for the thread-specific model together with the shared
    model and the optimizer it is synchronised with.
    - [pi_and_v] evaluates the policy and the V-function; a recurrent model
      changes its state while doing so;
    - [backward_and_sync] is everything between the loss and
      [unchain_backward] in [update] (lines 193-212);
    - [reset_state] is [model.reset_state()] when the model is [Recurrent]
      and the identity otherwise. *)
Class A3CModel (Model Obs Action Seed : Type) : Type := {
  pi_and_v : Model -> Obs -> Distribution Action Seed * Q * Model;
  backward_and_sync : Model -> update_record -> Model;
  reset_state : Model -> Model
}.

(** ** Configuration (the arguments of [A3C.__init__]) *)

Record config (State Obs : Type) : Type := {
  t_max : Z;
  gamma : Q;
  beta : Q;
  process_idx : Z;
  clip_reward : bool;
  phi : State -> Obs;
  pi_loss_coef : Q;
  v_loss_coef : Q;
  keep_loss_scale_same : bool;
  normalize_grad_by_t_max : bool;
  use_average_reward : bool;
  average_reward_tau : Q;
  act_deterministically : bool
}.

Arguments t_max {State Obs} _.
Arguments gamma {State Obs} _.
Arguments beta {State Obs} _.
Arguments process_idx {State Obs} _.
Arguments clip_reward {State Obs} _.
Arguments phi {State Obs} _ _.
Arguments pi_loss_coef {State Obs} _.
Arguments v_loss_coef {State Obs} _.
Arguments keep_loss_scale_same {State Obs} _.
Arguments normalize_grad_by_t_max {State Obs} _.
Arguments use_average_reward {State Obs} _.
Arguments average_reward_tau {State Obs} _.
Arguments act_deterministically {State Obs} _.

(** [np.clip(x, lo, hi)] *)
Definition np_clip (x lo hi : Q) : Q := Qmin (Qmax x lo) hi.

(** [reversed(range(a, b))] *)
Definition reversed_range (a b : Z) : list Z := rev (seqZ a (b - a)).

(** ** The agent *)

Section Agent.

Context {Model State Obs Action Seed : Type}.
Context `{A3CModel Model Obs Action Seed}.

Record agent : Type := {
  model : Model;
  t : Z;
  t_start : Z;
  past_action_log_prob : gmap Z Q;
  past_action_entropy : gmap Z Q;
  past_states : gmap Z Obs;
  past_rewards : gmap Z Q;
  past_values : gmap Z Q;
  average_reward : Q
}.

(** The agent as [__init__] leaves it. *)
Definition init (m : Model) : agent :=
  {| model := m; t := 0; t_start := 0;
     past_action_log_prob := ∅; past_action_entropy := ∅;
     past_states := ∅; past_rewards := ∅; past_values := ∅;
     average_reward := 0 |}.

Definition set_model (f : Model -> Model) (a : agent) : agent :=
  {| model := f (model a); t := t a; t_start := t_start a;
     past_action_log_prob := past_action_log_prob a;
     past_action_entropy := past_action_entropy a;
     past_states := past_states a; past_rewards := past_rewards a;
     past_values := past_values a; average_reward := average_reward a |}.

Definition set_t (f : Z -> Z) (a : agent) : agent :=
  {| model := model a; t := f (t a); t_start := t_start a;
     past_action_log_prob := past_action_log_prob a;
     past_action_entropy := past_action_entropy a;
     past_states := past_states a; past_rewards := past_rewards a;
     past_values := past_values a; average_reward := average_reward a |}.

Definition set_past_action_log_prob (f : gmap Z Q -> gmap Z Q) (a : agent) : agent :=
  {| model := model a; t := t a; t_start := t_start a;
     past_action_log_prob := f (past_action_log_prob a);
     past_action_entropy := past_action_entropy a;
     past_states := past_states a; past_rewards := past_rewards a;
     past_values := past_values a; average_reward := average_reward a |}.

Definition set_past_action_entropy (f : gmap Z Q -> gmap Z Q) (a : agent) : agent :=
  {| model := model a; t := t a; t_start := t_start a;
     past_action_log_prob := past_action_log_prob a;
     past_action_entropy := f (past_action_entropy a);
     past_states := past_states a; past_rewards := past_rewards a;
     past_values := past_values a; average_reward := average_reward a |}.

Definition set_past_states (f : gmap Z Obs -> gmap Z Obs) (a : agent) : agent :=
  {| model := model a; t := t a; t_start := t_start a;
     past_action_log_prob := past_action_log_prob a;
     past_action_entropy := past_action_entropy a;
     past_states := f (past_states a); past_rewards := past_rewards a;
     past_values := past_values a; average_reward := average_reward a |}.

Definition set_past_rewards (f : gmap Z Q -> gmap Z Q) (a : agent) : agent :=
  {| model := model a; t := t a; t_start := t_start a;
     past_action_log_prob := past_action_log_prob a;
     past_action_entropy := past_action_entropy a;
     past_states := past_states a; past_rewards := f (past_rewards a);
     past_values := past_values a; average_reward := average_reward a |}.

Definition set_past_values (f : gmap Z Q -> gmap Z Q) (a : agent) : agent :=
  {| model := model a; t := t a; t_start := t_start a;
     past_action_log_prob := past_action_log_prob a;
     past_action_entropy := past_action_entropy a;
     past_states := past_states a; past_rewards := past_rewards a;
     past_values := f (past_values a); average_reward := average_reward a |}.

Definition set_average_reward (f : Q -> Q) (a : agent) : agent :=
  {| model := model a; t := t a; t_start := t_start a;
     past_action_log_prob := past_action_log_prob a;
     past_action_entropy := past_action_entropy a;
     past_states := past_states a; past_rewards := past_rewards a;
     past_values := past_values a; average_reward := f (average_reward a) |}.

Variable cfg : config State Obs.

(** *** update *)

(** The local variables of the loop. *)
Record locals : Type := {
  R : Q;
  pi_loss : Q;
  v_loss : Q;
  steps : list step_entry
}.

(** Lines 149-171: the body of the loop, for index [i]. *)
Definition loop_body (i : Z) (l : locals) : M agent locals :=
  let R := R l * gamma cfg in
  r <- getitem past_rewards i ;;
  let R := R + r in
  b <- gets average_reward ;;
  let R := if use_average_reward cfg then R - b else R in
  v <- getitem past_values i ;;
  (if (process_idx cfg =? 0)%Z
   then (_ <- getitem past_states i ;; ret tt)
   else ret tt) ;;;
  let advantage := R - v in
  (if use_average_reward cfg
   then modify (set_average_reward
                  (fun a => a + average_reward_tau cfg * advantage))
   else ret tt) ;;;
  log_prob <- getitem past_action_log_prob i ;;
  entropy <- getitem past_action_entropy i ;;
  let pi_loss := pi_loss l - log_prob * advantage in
  let pi_loss := pi_loss - beta cfg * entropy in
  let v_loss := v_loss l + (v - R) ^ 2 / 2 in
  ret {| R := R; pi_loss := pi_loss; v_loss := v_loss;
         steps := steps l ++
           [ {| e_index := i; e_reward := r; e_baseline := b;
                e_value := v; e_R := R; e_advantage := advantage |} ] |}.

(** Line 148: the loop over the given indices. *)
Fixpoint update_loop (idxs : list Z) (l : locals) : M agent locals :=
  match idxs with
  | [] => ret l
  | i :: rest => l' <- loop_body i l ;; update_loop rest l'
  end.

(** Lines 173-188: the transforms of the two accumulated losses, for a
    window of length [n = t - t_start]. *)
Definition loss_transforms (n : Z) (pi_loss v_loss : Q) : Q * Q :=
  let pi_loss :=
    if negb (Qeq_bool (pi_loss_coef cfg) 1)
    then pi_loss * pi_loss_coef cfg else pi_loss in
  let v_loss :=
    if negb (Qeq_bool (v_loss_coef cfg) 1)
    then v_loss * v_loss_coef cfg else v_loss in
  let '(pi_loss, v_loss) :=
    if keep_loss_scale_same cfg && (n <? t_max cfg)%Z
    then
      let factor := inject_Z (t_max cfg) / inject_Z n in
      (pi_loss * factor, v_loss * factor)
    else (pi_loss, v_loss) in
  let '(pi_loss, v_loss) :=
    if normalize_grad_by_t_max cfg
    then (pi_loss / inject_Z n, v_loss / inject_Z n)
    else (pi_loss, v_loss) in
  (pi_loss, v_loss).

(** Lines 139-144: the bootstrap value.  [state_kept] restores the model's
    state, so only the value is used. *)
Definition bootstrap_value (m : Model) (statevar : option Obs) : Q :=
  match statevar with
  | None => 0
  | Some sv => snd (fst (pi_and_v m sv))
  end.

(** Lines 214-220. *)
Definition clear_window (a : agent) : agent :=
  {| model := model a; t := t a; t_start := t a;
     past_action_log_prob := ∅; past_action_entropy := ∅;
     past_states := ∅; past_rewards := ∅; past_values := ∅;
     average_reward := average_reward a |}.

(** Lines 173-193: the transformed losses and their sum, with what the
    loop computed. *)
Definition make_record (n : Z) (R0 : Q) (l : locals) : update_record :=
  let '(pi_loss, v_loss) := loss_transforms n (pi_loss l) (v_loss l) in
  {| u_bootstrap := R0; u_steps := steps l;
     u_pi_loss := pi_loss; u_v_loss := v_loss;
     u_total_loss := pi_loss + v_loss |}.

Definition update (statevar : option Obs) : M agent update_record :=
  t_start0 <- gets t_start ;;
  t0 <- gets t ;;
  assert (t_start0 <? t0)%Z ;;;
  m <- gets model ;;
  let R0 := bootstrap_value m statevar in
  l <- update_loop (reversed_range t_start0 t0)
         {| R := R0; pi_loss := 0; v_loss := 0; steps := [] |} ;;
  let rec := make_record (t0 - t_start0) R0 l in
  modify (set_model (fun m => backward_and_sync m rec)) ;;;
  modify clear_window ;;;
  ret rec.

(** *** The public operations *)

(** Lines 224-229 and 258-261: clip the reward and store it at [t - 1]. *)
Definition store_reward (reward : Q) : M agent unit :=
  let reward := if clip_reward cfg then np_clip reward (-1) 1 else reward in
  t0 <- gets t ;;
  modify (set_past_rewards (fun d => <[(t0 - 1)%Z := reward]> d)).

(** [act_and_train(state, reward)].  Besides the sampled action the result
    tells what the update computed, when one was made. *)
Definition act_and_train (state : State) (reward : Q) (seed : Seed)
  : M agent (Action * option update_record) :=
  let statevar := phi cfg state in
  store_reward reward ;;;
  t0 <- gets t ;;
  t_start0 <- gets t_start ;;
  upd <- (if (t0 - t_start0 =? t_max cfg)%Z
          then (u <- update (Some statevar) ;; ret (Some u))
          else ret None) ;;
  t1 <- gets t ;;
  modify (set_past_states (fun d => <[t1 := statevar]> d)) ;;;
  m <- gets model ;;
  let '(pout, vout, m') := pi_and_v m statevar in
  modify (set_model (fun _ => m')) ;;;
  let action := sample pout seed in
  modify (set_past_action_log_prob
            (fun d => <[t1 := log_prob pout action]> d)) ;;;
  modify (set_past_action_entropy (fun d => <[t1 := entropy pout]> d)) ;;;
  modify (set_past_values (fun d => <[t1 := vout]> d)) ;;;
  modify (set_t (fun t => (t + 1)%Z)) ;;;
  ret (action, upd).

(** [act(obs)] *)
Definition act (obs : State) (seed : Seed) : M agent Action :=
  let statevar := phi cfg obs in
  m <- gets model ;;
  let '(pout, _, m') := pi_and_v m statevar in
  modify (set_model (fun _ => m')) ;;;
  if act_deterministically cfg
  then ret (most_probable pout)
  else ret (sample pout seed).

(** [stop_episode_and_train(state, reward, done)].  The result is what the
    update computed. *)
Definition stop_episode_and_train (state : State) (reward : Q) (done : bool)
  : M agent update_record :=
  store_reward reward ;;;
  u <- (if done
        then update None
        else update (Some (phi cfg state))) ;;
  modify (set_model reset_state) ;;;
  ret u.

(** [stop_episode()] *)
Definition stop_episode : M agent unit :=
  modify (set_model reset_state).

(** *** Sequences of calls *)

Inductive op : Type :=
| ActAndTrain (state : State) (reward : Q) (seed : Seed)
| Act (obs : State) (seed : Seed)
| StopEpisodeAndTrain (state : State) (reward : Q) (done : bool)
| StopEpisode.

(** What a call lets its caller observe: the action returned, and what the
    update computed when one was made. *)
Record event : Type := {
  ev_action : option Action;
  ev_update : option update_record
}.

Definition exec (o : op) : M agent event :=
  match o with
  | ActAndTrain state reward seed =>
      r <- act_and_train state reward seed ;;
      ret {| ev_action := Some (fst r); ev_update := snd r |}
  | Act obs seed =>
      a <- act obs seed ;;
      ret {| ev_action := Some a; ev_update := None |}
  | StopEpisodeAndTrain state reward done =>
      u <- stop_episode_and_train state reward done ;;
      ret {| ev_action := None; ev_update := Some u |}
  | StopEpisode =>
      stop_episode ;;;
      ret {| ev_action := None; ev_update := None |}
  end.

(** A caller that goes on after an exception: every call is made, on the
    state the previous one left. *)
Fixpoint run (ops : list op) (s : agent) : list (outcome event) * agent :=
  match ops with
  | [] => ([], s)
  | o :: rest =>
      let '(r, s') := exec o s in
      let '(rs, s'') := run rest s' in
      (r :: rs, s'')
  end.

(** The states the public operations can bring a fresh agent to. *)
Inductive reachable : agent -> Prop :=
| reachable_init (m : Model) : reachable (init m)
| reachable_exec (o : op) (s : agent) :
    reachable s -> reachable (snd (exec o s)).

End Agent.

Arguments agent : clear implicits.

(** ** A concrete model: the constant-value model of the end-to-end scenario

    The value estimate is [0] for every observation and the policy is
    deterministic: one action, of probability one. *)

Module ConstModel.

Definition dist : Distribution Z unit :=
  {| sample := fun _ => 0%Z; log_prob := fun _ => 0;
     entropy := 0; most_probable := 0%Z |}.

#[global] Instance const_model : A3CModel unit Z Z unit :=
  {| pi_and_v := fun m _ => (dist, 0, m);
     backward_and_sync := fun m _ => m;
     reset_state := fun m => m |}.

(** Horizon 3, discount 9/10, the defaults of [__init__] otherwise. *)
Definition cfg : config Z Z :=
  {| t_max := 3; gamma := 9 # 10; beta := 1 # 100; process_idx := 0;
     clip_reward := true; phi := fun x => x;
     pi_loss_coef := 1; v_loss_coef := 1 # 2;
     keep_loss_scale_same := false; normalize_grad_by_t_max := false;
     use_average_reward := false; average_reward_tau := 1 # 100;
     act_deterministically := false |}.

Definition fresh : agent unit Z := init tt.

(** The same with the average-reward mode switched on. *)
Definition cfg_avg : config Z Z :=
  {| t_max := 3; gamma := 9 # 10; beta := 1 # 100; process_idx := 0;
     clip_reward := true; phi := fun x => x;
     pi_loss_coef := 1; v_loss_coef := 1 # 2;
     keep_loss_scale_same := false; normalize_grad_by_t_max := false;
     use_average_reward := true; average_reward_tau := 1 # 100;
     act_deterministically := false |}.

(** An agent with the window [0, n) recorded and the reward 1 everywhere. *)
Definition zeros (n : nat) : gmap Z Q :=
  list_to_map ((fun i => (i, 0)) <$> seqZ 0 (Z.of_nat n)).

Definition window (n : nat) : agent unit Z :=
  {| model := tt; t := Z.of_nat n; t_start := 0;
     past_action_log_prob := zeros n; past_action_entropy := zeros n;
     past_states := list_to_map ((fun i => (i, 0%Z)) <$> seqZ 0 (Z.of_nat n));
     past_rewards := list_to_map ((fun i => (i, 1)) <$> seqZ 0 (Z.of_nat n));
     past_values := zeros n; average_reward := 0 |}.

End ConstModel.

(** * Properties *)

(** ** Sums and the closed forms of the returns *)

(** [f lo + f (lo + 1) + ... + f (lo + len - 1)] *)
Fixpoint sum_from (f : nat -> Q) (lo len : nat) : Q :=
  match len with
  | O => 0
  | S len' => f lo + sum_from f (S lo) len'
  end.

Definition sumQ (l : list Q) : Q := foldr Qplus 0 l.

(** The return of window position [k], for a window of length [n] with
    rewards [r 0 .. r (n-1)] and bootstrap [R0], as the recurrence
    [R := gamma * R + r] unfolds. *)
Definition discounted_return (g : Q) (r : nat -> Q) (R0 : Q) (n k : nat) : Q :=
  sum_from (fun j => g ^ Z.of_nat (j - k) * r j) k (n - k)
  + g ^ Z.of_nat (n - k) * R0.

(** The same return as the specification words it, with the reward of
    position [j] weighted by [gamma^(j-k+1)]. *)
Definition spec_discounted_return (g : Q) (r : nat -> Q) (R0 : Q) (n k : nat) : Q :=
  sum_from (fun j => g ^ Z.of_nat (j - k + 1) * r j) k (n - k)
  + g ^ Z.of_nat (n - k) * R0.

Lemma sum_from_snoc (f : nat -> Q) (lo len : nat) :
  sum_from f lo (S len) == sum_from f lo len + f (lo + len)%nat.
Proof.
  revert lo. induction len as [|len IH]; intros lo.
  - cbn [sum_from]. rewrite Nat.add_0_r. ring.
  - change (sum_from f lo (S (S len))) with (f lo + sum_from f (S lo) (S len)).
    rewrite IH. cbn [sum_from].
    replace (S lo + len)%nat with (lo + S len)%nat by lia.
    ring.
Qed.

Lemma Qpower_S (g : Q) (m : nat) : g ^ Z.of_nat (S m) == g * g ^ Z.of_nat m.
Proof.
  rewrite Nat2Z.inj_succ. unfold Z.succ.
  rewrite Z.add_comm. rewrite Qpower_plus' by lia. reflexivity.
Qed.

(** The recurrence, one step further from the end of the window. *)
Lemma discounted_return_step (g : Q) (r : nat -> Q) (R0 : Q) (n k : nat) :
  (k <= n)%nat ->
  discounted_return g r R0 (S n) k
  == discounted_return g r (R0 * g + r n) n k.
Proof.
  intros Hk. unfold discounted_return.
  replace (S n - k)%nat with (S (n - k)) by lia.
  rewrite sum_from_snoc, Qpower_S.
  replace (k + (n - k))%nat with n by lia. ring.
Qed.

Lemma discounted_return_last (g : Q) (r : nat -> Q) (R0 : Q) (n : nat) :
  discounted_return g r R0 (S n) n == R0 * g + r n.
Proof.
  unfold discounted_return. replace (S n - n)%nat with 1%nat by lia.
  simpl. rewrite Nat.sub_diag. simpl. ring.
Qed.

Lemma filter_none {A} (P : A -> Prop) `{forall x, Decision (P x)} (l : list A) :
  Forall (fun x => ~ P x) l -> filter P l = [].
Proof.
  induction 1 as [|x l Hx _ IH]; [reflexivity|].
  rewrite filter_cons_False by exact Hx. exact IH.
Qed.

(** ** The loop of [update] *)

Section Loop.

Context {Model State Obs Action Seed : Type}.
Context `{A3CModel Model Obs Action Seed}.
Variable cfg : config State Obs.

Local Abbreviation agent := (agent Model Obs).

Lemma reversed_range_S (a : Z) (n : nat) :
  reversed_range a (a + Z.of_nat (S n))
  = (a + Z.of_nat n)%Z :: reversed_range a (a + Z.of_nat n).
Proof.
  unfold reversed_range.
  replace (a + Z.of_nat (S n) - a)%Z with (Z.of_nat (S n)) by lia.
  replace (a + Z.of_nat n - a)%Z with (Z.of_nat n) by lia.
  rewrite seqZ_S, rev_app_distr. reflexivity.
Qed.

Lemma reversed_range_empty (a b : Z) : (b <= a)%Z -> reversed_range a b = [].
Proof.
  intros Hab. unfold reversed_range. rewrite seqZ_nil by lia. reflexivity.
Qed.

Lemma reversed_range_elem (a b i : Z) :
  i ∈ reversed_range a b <-> (a <= i < b)%Z.
Proof.
  unfold reversed_range.
  rewrite list_elem_of_In, <- in_rev, <- list_elem_of_In, elem_of_seqZ. lia.
Qed.

(** Reads of the two dictionaries the loop body consults last, after the
    baseline may have been written. *)
Ltac read_dicts Hlp Hen :=
  repeat (cbn [set_average_reward past_action_log_prob past_action_entropy];
          first [rewrite Hlp | rewrite Hen]).

(** Step [i] can be processed: every dictionary the loop body reads has
    the key. *)
Definition has_entry (s : agent) (i : Z) : Prop :=
  is_Some (past_rewards s !! i) /\
  is_Some (past_values s !! i) /\
  is_Some (past_action_log_prob s !! i) /\
  is_Some (past_action_entropy s !! i) /\
  (process_idx cfg = 0%Z -> is_Some (past_states s !! i)).

(** [R] and the advantage of an iteration that starts from [R0], reads the
    baseline [b], the reward [r] and the value [v]. *)
Definition next_R (R0 b r : Q) : Q :=
  if use_average_reward cfg then R0 * gamma cfg + r - b else R0 * gamma cfg + r.

Definition next_baseline (b adv : Q) : Q :=
  if use_average_reward cfg then b + average_reward_tau cfg * adv else b.

Definition next_entry (i : Z) (R0 b r v : Q) : step_entry :=
  {| e_index := i; e_reward := r; e_baseline := b; e_value := v;
     e_R := next_R R0 b r; e_advantage := next_R R0 b r - v |}.

Definition next_locals (i : Z) (l : locals) (b r v lp en : Q) : locals :=
  {| R := next_R (R l) b r;
     pi_loss := pi_loss l - lp * (next_R (R l) b r - v) - beta cfg * en;
     v_loss := v_loss l + (v - next_R (R l) b r) ^ 2 / 2;
     steps := steps l ++ [next_entry i (R l) b r v] |}.

Definition next_state (s : agent) (adv : Q) : agent :=
  if use_average_reward cfg
  then set_average_reward (fun a => a + average_reward_tau cfg * adv) s
  else s.

Lemma loop_body_Ok (i : Z) (l : locals) (s : agent) (r v lp en : Q) :
  past_rewards s !! i = Some r ->
  past_values s !! i = Some v ->
  past_action_log_prob s !! i = Some lp ->
  past_action_entropy s !! i = Some en ->
  (process_idx cfg = 0%Z -> is_Some (past_states s !! i)) ->
  loop_body cfg i l s
  = (Ok (next_locals i l (average_reward s) r v lp en),
     next_state s (next_R (R l) (average_reward s) r - v)).
Proof.
  intros Hr Hv Hlp Hen Hst.
  unfold loop_body, bind, getitem, gets, modify, ret.
  rewrite Hr, Hv.
  unfold next_locals, next_entry, next_state, next_R.
  destruct (process_idx cfg =? 0)%Z eqn:Hp.
  - destruct Hst as [o Ho]; [lia|]. rewrite Ho.
    destruct (use_average_reward cfg); read_dicts Hlp Hen; reflexivity.
  - destruct (use_average_reward cfg); read_dicts Hlp Hen; reflexivity.
Qed.

(** The loop body raises nothing but [KeyError], and whatever it does it
    touches the baseline only. *)
Definition same_but_baseline (s s' : agent) : Prop :=
  s' = set_average_reward (fun _ => average_reward s') s.

Lemma same_but_baseline_refl (s : agent) : same_but_baseline s s.
Proof. destruct s; reflexivity. Qed.

Lemma same_but_baseline_trans (s1 s2 s3 : agent) :
  same_but_baseline s1 s2 -> same_but_baseline s2 s3 -> same_but_baseline s1 s3.
Proof.
  unfold same_but_baseline. intros H12 H23. rewrite H23 at 1. rewrite H12.
  destruct s1; reflexivity.
Qed.

Lemma next_state_same (s : agent) (adv : Q) :
  same_but_baseline s (next_state s adv).
Proof.
  unfold next_state. destruct (use_average_reward cfg).
  - destruct s; reflexivity.
  - apply same_but_baseline_refl.
Qed.

Lemma next_state_baseline (s : agent) (adv : Q) :
  average_reward (next_state s adv) = next_baseline (average_reward s) adv.
Proof.
  unfold next_state, next_baseline. destruct (use_average_reward cfg); reflexivity.
Qed.

Lemma has_entry_same (s s' : agent) (i : Z) :
  same_but_baseline s s' -> has_entry s i -> has_entry s' i.
Proof. unfold same_but_baseline, has_entry. intros ->. cbn. tauto. Qed.

Lemma has_entry_same_inv (s s' : agent) (i : Z) :
  same_but_baseline s s' -> has_entry s' i -> has_entry s i.
Proof. unfold same_but_baseline, has_entry. intros ->. cbn. tauto. Qed.

Lemma loop_body_result (i : Z) (l : locals) (s : agent) :
  (exists l', loop_body cfg i l s
              = (Ok l', next_state s (R l' - default 0 (past_values s !! i)))
     /\ has_entry s i)
  \/ (exists s', loop_body cfg i l s = (Raise KeyError, s')
                 /\ same_but_baseline s s' /\ ~ has_entry s i).
Proof.
  destruct (past_rewards s !! i) as [r|] eqn:Hr.
  2:{ right. exists s. unfold loop_body, bind, getitem. rewrite Hr.
      split; [reflexivity|]. split; [apply same_but_baseline_refl|].
      unfold has_entry. rewrite Hr. intros [[? ?] _]. discriminate. }
  destruct (past_values s !! i) as [v|] eqn:Hv.
  2:{ right. exists s. unfold loop_body, bind, getitem, gets. rewrite Hr, Hv.
      split; [reflexivity|]. split; [apply same_but_baseline_refl|].
      unfold has_entry. rewrite Hv. intros (_ & [? ?] & _). discriminate. }
  destruct (decide (process_idx cfg = 0%Z /\ past_states s !! i = None))
    as [[Hp Hst]|Hst].
  { right. exists s. unfold loop_body, bind, getitem, gets. rewrite Hr, Hv.
    rewrite Hp. cbn [Z.eqb]. rewrite Hst.
    split; [reflexivity|]. split; [apply same_but_baseline_refl|].
    unfold has_entry. rewrite Hst. intros (_ & _ & _ & _ & Hs).
    destruct (Hs Hp); discriminate. }
  assert (Hst' : process_idx cfg = 0%Z -> is_Some (past_states s !! i)).
  { intros Hp. destruct (past_states s !! i) eqn:E; [eauto|].
    exfalso. apply Hst. auto. }
  destruct (past_action_log_prob s !! i) as [lp|] eqn:Hlp.
  2:{ right. exists (next_state s (next_R (R l) (average_reward s) r - v)).
      split; [|split; [apply next_state_same|]].
      - unfold loop_body, bind, getitem, gets, modify, ret. rewrite Hr, Hv.
        unfold next_state, next_R.
        destruct (process_idx cfg =? 0)%Z eqn:Hp.
        + destruct Hst' as [o Ho]; [lia|]. rewrite Ho.
          destruct (use_average_reward cfg); read_dicts Hlp Hlp; reflexivity.
        + destruct (use_average_reward cfg); read_dicts Hlp Hlp; reflexivity.
      - unfold has_entry. rewrite Hlp. intros (_ & _ & [? ?] & _). discriminate. }
  destruct (past_action_entropy s !! i) as [en|] eqn:Hen.
  2:{ right. exists (next_state s (next_R (R l) (average_reward s) r - v)).
      split; [|split; [apply next_state_same|]].
      - unfold loop_body, bind, getitem, gets, modify, ret. rewrite Hr, Hv.
        unfold next_state, next_R.
        destruct (process_idx cfg =? 0)%Z eqn:Hp.
        + destruct Hst' as [o Ho]; [lia|]. rewrite Ho.
          destruct (use_average_reward cfg); read_dicts Hlp Hen; reflexivity.
        + destruct (use_average_reward cfg); read_dicts Hlp Hen; reflexivity.
      - unfold has_entry. rewrite Hen. intros (_ & _ & _ & [? ?] & _).
        discriminate. }
  left. exists (next_locals i l (average_reward s) r v lp en). split.
  - rewrite (loop_body_Ok i l s r v lp en) by assumption. reflexivity.
  - unfold has_entry. rewrite Hr, Hv, Hlp, Hen. eauto 10.
Qed.

Lemma same_but_baseline_fields (s s' : agent) :
  same_but_baseline s s' ->
  model s' = model s /\ t s' = t s /\ t_start s' = t_start s /\
  past_action_log_prob s' = past_action_log_prob s /\
  past_action_entropy s' = past_action_entropy s /\
  past_states s' = past_states s /\
  past_rewards s' = past_rewards s /\
  past_values s' = past_values s.
Proof. unfold same_but_baseline. intros ->. cbn. tauto. Qed.

(** Whatever the loop does, it raises nothing but [KeyError] and touches
    the baseline only. *)
Lemma update_loop_frame (idxs : list Z) (l : locals) (s : agent) :
  same_but_baseline s (snd (update_loop cfg idxs l s)) /\
  (forall e, fst (update_loop cfg idxs l s) = Raise e -> e = KeyError).
Proof.
  revert l s. induction idxs as [|i idxs IH]; intros l s.
  - cbn. split; [apply same_but_baseline_refl|discriminate].
  - cbn [update_loop]. unfold bind.
    destruct (loop_body_result i l s) as [(l' & Hb & _)|(s' & Hb & Hs & _)];
      rewrite Hb.
    + destruct (IH l' (next_state s (R l' - default 0 (past_values s !! i))))
        as [IH1 IH2].
      split; [|exact IH2].
      eapply same_but_baseline_trans; [apply next_state_same|exact IH1].
    + cbn. split; [exact Hs|]. intros e [= <-]. reflexivity.
Qed.

(** The iterations of the loop as a relation: from [R] and the baseline
    [b], over the indices, to the entries and the final [R] and baseline. *)
Inductive chain (rw vl : gmap Z Q)
  : Q -> Q -> list Z -> list step_entry -> Q -> Q -> Prop :=
| chain_nil (R0 b : Q) : chain rw vl R0 b [] [] R0 b
| chain_cons (R0 b : Q) (i : Z) (r v : Q) (idxs : list Z)
    (es : list step_entry) (R' b' : Q) :
    rw !! i = Some r ->
    vl !! i = Some v ->
    chain rw vl (next_R R0 b r) (next_baseline b (next_R R0 b r - v))
      idxs es R' b' ->
    chain rw vl R0 b (i :: idxs) (next_entry i R0 b r v :: es) R' b'.

Lemma update_loop_chain (idxs : list Z) (l : locals) (s : agent) :
  Forall (has_entry s) idxs ->
  exists l' s' es,
    update_loop cfg idxs l s = (Ok l', s') /\
    same_but_baseline s s' /\
    steps l' = steps l ++ es /\
    chain (past_rewards s) (past_values s) (R l) (average_reward s)
      idxs es (R l') (average_reward s').
Proof.
  revert l s. induction idxs as [|i idxs IH]; intros l s Hall.
  - exists l, s, []. cbn. rewrite app_nil_r.
    repeat split; [apply same_but_baseline_refl|constructor].
  - inversion Hall as [|? ? Hi Hrest]; subst.
    destruct Hi as ([r Hr] & [v Hv] & [lp Hlp] & [en Hen] & Hst).
    pose proof (loop_body_Ok i l s r v lp en Hr Hv Hlp Hen Hst) as Hb.
    set (l1 := next_locals i l (average_reward s) r v lp en) in *.
    set (s1 := next_state s (next_R (R l) (average_reward s) r - v)) in *.
    assert (Hs1 : same_but_baseline s s1) by apply next_state_same.
    destruct (IH l1 s1) as (l' & s' & es & Hloop & Hs' & Hsteps & Hchain).
    { eapply Forall_impl; [exact Hrest|].
      intros j Hj. eapply has_entry_same; eassumption. }
    exists l', s', (next_entry i (R l) (average_reward s) r v :: es).
    cbn [update_loop]. unfold bind. rewrite Hb, Hloop.
    split; [reflexivity|].
    split; [eapply same_but_baseline_trans; eassumption|].
    split.
    + rewrite Hsteps. subst l1. cbn [steps next_locals].
      rewrite <- app_assoc. reflexivity.
    + destruct (same_but_baseline_fields _ _ Hs1)
        as (_ & _ & _ & _ & _ & _ & Hrw & Hvl).
      rewrite Hrw, Hvl in Hchain.
      econstructor; [exact Hr|exact Hv|].
      subst l1 s1. cbn [R next_locals] in Hchain.
      rewrite next_state_baseline in Hchain. exact Hchain.
Qed.

(** The entries are those of the indices, in the same order. *)
Lemma chain_indices rw vl R0 b idxs es R' b' :
  chain rw vl R0 b idxs es R' b' -> e_index <$> es = idxs.
Proof.
  induction 1 as [|? ? ? ? ? ? ? ? ? ? ? ? IH]; cbn; [reflexivity|].
  rewrite IH. reflexivity.
Qed.

Lemma reversed_range_lookup (a : Z) (n p : nat) :
  (p < n)%nat ->
  reversed_range a (a + Z.of_nat n) !! p = Some (a + Z.of_nat n - 1 - Z.of_nat p)%Z.
Proof.
  revert p. induction n as [|n IH]; intros p Hp; [lia|].
  rewrite reversed_range_S. destruct p as [|p]; cbn [lookup list_lookup].
  - f_equal. lia.
  - change ((reversed_range a (a + Z.of_nat n)) !! p
            = Some (a + Z.of_nat (S n) - 1 - Z.of_nat (S p))%Z).
    rewrite IH by lia. f_equal. lia.
Qed.

(** The reward of window position [j], for a window that starts at [a]. *)
Definition window_reward (rw : gmap Z Q) (a : Z) (j : nat) : Q :=
  default 0 (rw !! (a + Z.of_nat j)%Z).

(** Without the average-reward mode the entries carry the discounted
    returns. *)
Lemma chain_returns (rw vl : gmap Z Q) (a : Z) (n : nat) :
  use_average_reward cfg = false ->
  forall R0 b es R' b',
    chain rw vl R0 b (reversed_range a (a + Z.of_nat n)) es R' b' ->
    forall k, (k < n)%nat ->
      exists e, es !! (n - 1 - k)%nat = Some e /\
                e_index e = (a + Z.of_nat k)%Z /\
                e_reward e = window_reward rw a k /\
                e_R e == discounted_return (gamma cfg) (window_reward rw a) R0 n k.
Proof.
  intros Havg. induction n as [|n IH]; intros R0 b es R' b' Hch k Hk; [lia|].
  rewrite reversed_range_S in Hch.
  inversion Hch as [|? ? ? r v ? es' ? ? Hr Hv Hrest]; subst.
  assert (Hw : window_reward rw a n = r).
  { unfold window_reward. rewrite Hr. reflexivity. }
  assert (HR : next_R R0 b r = R0 * gamma cfg + r).
  { unfold next_R. rewrite Havg. reflexivity. }
  destruct (decide (k = n)) as [->|Hne].
  - exists (next_entry (a + Z.of_nat n) R0 b r v).
    replace (S n - 1 - n)%nat with 0%nat by lia.
    split; [reflexivity|]. split; [reflexivity|].
    split; [cbn; congruence|].
    cbn [e_R next_entry]. rewrite HR, discounted_return_last, Hw. reflexivity.
  - destruct (IH _ _ _ _ _ Hrest k) as (e & He & Hidx & Hrw & HeR); [lia|].
    exists e. replace (S n - 1 - k)%nat with (S (n - 1 - k)) by lia.
    split; [exact He|]. split; [exact Hidx|]. split; [exact Hrw|].
    rewrite HeR, HR, discounted_return_step, Hw by lia. reflexivity.
Qed.

(** The [R] the iteration at position [p] starts from. *)
Definition R_before (R0 : Q) (es : list step_entry) (p : nat) : Q :=
  match p with
  | O => R0
  | S p' => default 0 (e_R <$> es !! p')
  end.

(** Every entry obeys the recurrence of the loop body. *)
Lemma chain_recurrence (rw vl : gmap Z Q) R0 b idxs es R' b' :
  chain rw vl R0 b idxs es R' b' ->
  forall p e, es !! p = Some e ->
    rw !! e_index e = Some (e_reward e) /\
    vl !! e_index e = Some (e_value e) /\
    e_R e = next_R (R_before R0 es p) (e_baseline e) (e_reward e) /\
    e_advantage e = e_R e - e_value e.
Proof.
  induction 1 as [|R0 b i r v idxs es R' b' Hr Hv Hch IH]; intros p e He.
  - rewrite lookup_nil in He. discriminate.
  - destruct p as [|p].
    + injection He as <-. cbn. auto.
    + change (es !! p = Some e) in He.
      destruct (IH p e He) as (H1 & H2 & H3 & H4).
      repeat split; try assumption.
      rewrite H3. f_equal. destruct p as [|p]; [reflexivity|].
      cbn [R_before]. reflexivity.
Qed.

(** With the average-reward mode, over a descending range: the baseline an
    entry read is the initial one plus the increments of the entries of
    greater index, and the final baseline has all the increments. *)
Lemma chain_baseline (rw vl : gmap Z Q) (a : Z) (n : nat) :
  use_average_reward cfg = true ->
  forall R0 b es R' b',
    chain rw vl R0 b (reversed_range a (a + Z.of_nat n)) es R' b' ->
    b' == b + average_reward_tau cfg * sumQ (e_advantage <$> es) /\
    Forall (fun e => (a <= e_index e < a + Z.of_nat n)%Z) es /\
    forall e, e ∈ es ->
      e_baseline e
      == b + average_reward_tau cfg
             * sumQ (e_advantage <$>
                     filter (fun x => (e_index e < e_index x)%Z) es).
Proof.
  intros Havg. induction n as [|n IH]; intros R0 b es R' b' Hch.
  - rewrite reversed_range_empty in Hch by lia. inversion Hch; subst.
    split; [cbn; ring|]. split; [constructor|].
    intros e He. apply elem_of_nil in He. destruct He.
  - rewrite reversed_range_S in Hch.
    inversion Hch as [|? ? ? r v ? es' ? ? Hr Hv Hrest]; subst.
    destruct (IH _ _ _ _ _ Hrest) as (Hb' & Hrange & Hbase).
    assert (Hnb : forall x, next_baseline b x = b + average_reward_tau cfg * x).
    { intros x. unfold next_baseline. rewrite Havg. reflexivity. }
    rewrite Hnb in Hb', Hbase.
    set (e0 := next_entry (a + Z.of_nat n) R0 b r v) in *.
    split; [|split].
    + rewrite Hb'. cbn [fmap list_fmap sumQ foldr].
      change (foldr Qplus 0 (e_advantage <$> es'))
        with (sumQ (e_advantage <$> es')).
      subst e0. cbn [e_advantage next_entry]. ring.
    + constructor.
      * subst e0. cbn. lia.
      * eapply Forall_impl; [exact Hrange|]. cbn. intros; lia.
    + intros e He. apply elem_of_cons in He as [->|He].
      * rewrite filter_cons_False by (cbn; lia).
        assert (Hnone : filter (fun x => (e_index e0 < e_index x)%Z) es' = []).
        { apply filter_none. eapply Forall_impl; [exact Hrange|].
          subst e0. cbn. intros; lia. }
        rewrite Hnone. subst e0. cbn. ring.
      * rewrite filter_cons_True.
        2:{ rewrite Forall_forall in Hrange. specialize (Hrange e He).
            subst e0. cbn. lia. }
        rewrite (Hbase e He). cbn [fmap list_fmap sumQ foldr].
        change (foldr Qplus 0 ?l) with (sumQ l).
        subst e0. cbn [e_advantage next_entry]. ring.
Qed.

(** The increment of an iteration is made before the next one reads the
    baseline. *)
Lemma chain_baseline_step (rw vl : gmap Z Q) R0 b idxs es R' b' :
  chain rw vl R0 b idxs es R' b' ->
  (forall e, es !! 0%nat = Some e -> e_baseline e = b) /\
  (es = [] -> b' = b) /\
  forall p e, es !! p = Some e ->
    match es !! S p with
    | Some e' => e_baseline e' = next_baseline (e_baseline e) (e_advantage e)
    | None => b' = next_baseline (e_baseline e) (e_advantage e)
    end.
Proof.
  induction 1 as [|R0 b i r v idxs es R' b' Hr Hv Hch (IH0 & IHnil & IH)].
  - split; [|split]; [intros e He; rewrite lookup_nil in He; discriminate
                     |reflexivity
                     |intros p e He; rewrite lookup_nil in He; discriminate].
  - split; [|split]; [intros e [= <-]; reflexivity|discriminate|].
    intros [|p] e He.
    + injection He as <-. change ((next_entry i R0 b r v :: es) !! 1%nat)
        with (es !! 0%nat). cbn [e_baseline e_advantage next_entry].
      destruct (es !! 0%nat) as [e'|] eqn:E.
      * apply IH0. reflexivity.
      * destruct es; [apply IHnil; reflexivity|discriminate].
    + change (es !! p = Some e) in He. exact (IH p e He).
Qed.

(** A loop that ran to its end found every key. *)
Lemma update_loop_Ok_inv (idxs : list Z) (l l' : locals) (s s' : agent) :
  update_loop cfg idxs l s = (Ok l', s') -> Forall (has_entry s) idxs.
Proof.
  revert l s. induction idxs as [|i idxs IH]; intros l s Hloop; [constructor|].
  cbn [update_loop] in Hloop. unfold bind in Hloop.
  destruct (loop_body_result i l s) as [(l1 & Hb & Hi)|(s1 & Hb & _)];
    rewrite Hb in Hloop; [|discriminate].
  constructor; [exact Hi|].
  eapply Forall_impl; [exact (IH _ _ Hloop)|].
  intros j Hj. eapply has_entry_same_inv; [apply next_state_same|exact Hj].
Qed.

(** *** [update] as a whole *)

Definition loop_start (R0 : Q) : locals :=
  {| R := R0; pi_loss := 0; v_loss := 0; steps := [] |}.

Lemma update_unfold (sv : option Obs) (s : agent) :
  update cfg sv s
  = if (t_start s <? t s)%Z
    then
      match update_loop cfg (reversed_range (t_start s) (t s))
              (loop_start (bootstrap_value (model s) sv)) s with
      | (Ok l, s1) =>
          let rec := make_record cfg (t s - t_start s)
                       (bootstrap_value (model s) sv) l in
          (Ok rec,
           clear_window (set_model (fun m => backward_and_sync m rec) s1))
      | (Raise e, s1) => (Raise e, s1)
      end
    else (Raise AssertionError, s).
Proof.
  unfold update, bind, gets, assert, ret, raise, modify, loop_start.
  destruct (t_start s <? t s)%Z; [|reflexivity].
  destruct (update_loop _ _ _ _) as [[l|e] s1]; reflexivity.
Qed.

Lemma make_record_steps (n : Z) (R0 : Q) (l : locals) :
  u_steps (make_record cfg n R0 l) = steps l /\
  u_bootstrap (make_record cfg n R0 l) = R0 /\
  (u_pi_loss (make_record cfg n R0 l), u_v_loss (make_record cfg n R0 l))
  = loss_transforms cfg n (pi_loss l) (v_loss l).
Proof.
  unfold make_record.
  destruct (loss_transforms cfg n (pi_loss l) (v_loss l)); cbn. auto.
Qed.

(** The window is not empty and each of its steps can be processed. *)
Definition window_ready (s : agent) : Prop :=
  (t_start s < t s)%Z /\
  forall i, (t_start s <= i < t s)%Z -> has_entry s i.

Lemma window_ready_Forall (s : agent) :
  (forall i, (t_start s <= i < t s)%Z -> has_entry s i)
  <-> Forall (has_entry s) (reversed_range (t_start s) (t s)).
Proof.
  rewrite Forall_forall. split; intros Hall i Hi; apply Hall;
    apply reversed_range_elem; exact Hi.
Qed.

(** [update] returns exactly on ready windows. *)
Lemma update_Ok_iff (sv : option Obs) (s : agent) :
  (exists u s', update cfg sv s = (Ok u, s')) <-> window_ready s.
Proof.
  rewrite update_unfold. unfold window_ready. split.
  - intros (u & s' & Hupd).
    destruct (t_start s <? t s)%Z eqn:Hlt; [|discriminate].
    split; [lia|]. apply window_ready_Forall.
    destruct (update_loop _ _ _ _) as [[l|e] s1] eqn:Hloop; [|discriminate].
    eapply update_loop_Ok_inv; exact Hloop.
  - intros [Hlt Hall]. apply window_ready_Forall in Hall.
    destruct (update_loop_chain _ (loop_start (bootstrap_value (model s) sv))
                _ Hall) as (l & s1 & es & Hloop & _).
    rewrite Hloop. replace (t_start s <? t s)%Z with true by lia. eauto.
Qed.

(** What a returning [update] did, in one statement. *)
Lemma update_Ok_inv (sv : option Obs) (s s' : agent) (u : update_record) :
  update cfg sv s = (Ok u, s') ->
  exists l s1,
    (t_start s < t s)%Z /\
    update_loop cfg (reversed_range (t_start s) (t s))
      (loop_start (bootstrap_value (model s) sv)) s = (Ok l, s1) /\
    same_but_baseline s s1 /\
    u = make_record cfg (t s - t_start s) (bootstrap_value (model s) sv) l /\
    s' = clear_window (set_model (fun m => backward_and_sync m u) s1) /\
    chain (past_rewards s) (past_values s) (bootstrap_value (model s) sv)
      (average_reward s) (reversed_range (t_start s) (t s)) (u_steps u)
      (R l) (average_reward s').
Proof.
  intros Hupd. pose proof Hupd as Hupd'. rewrite update_unfold in Hupd.
  destruct (t_start s <? t s)%Z eqn:Hlt; [|discriminate].
  destruct (update_loop _ _ _ _) as [[l|e] s1] eqn:Hloop; [|discriminate].
  injection Hupd as <- <-. exists l, s1.
  pose proof (update_loop_Ok_inv _ _ _ _ _ Hloop) as Hall.
  destruct (update_loop_chain _ (loop_start (bootstrap_value (model s) sv))
              _ Hall) as (l2 & s2 & es & Hloop2 & Hsame & Hsteps & Hch).
  rewrite Hloop in Hloop2. injection Hloop2 as <- <-.
  split; [lia|]. split; [reflexivity|]. split; [exact Hsame|].
  split; [reflexivity|]. split; [reflexivity|].
  destruct (make_record_steps (t s - t_start s)
              (bootstrap_value (model s) sv) l) as (-> & _).
  cbn [steps loop_start app] in Hsteps. rewrite Hsteps. exact Hch.
Qed.

(** A returning [update] leaves the window empty. *)
Lemma update_Ok_cleared (sv : option Obs) (s s' : agent) (u : update_record) :
  update cfg sv s = (Ok u, s') ->
  s' = clear_window s' /\ t s' = t s.
Proof.
  intros Hupd.
  destruct (update_Ok_inv sv s s' u Hupd)
    as (l & s1 & _ & _ & Hsame & _ & -> & _).
  destruct (same_but_baseline_fields _ _ Hsame) as (_ & Ht & _).
  split; [reflexivity|exact Ht].
Qed.

End Loop.

(** ** The claims about [update] *)

Section Update.

Context {Model State Obs Action Seed : Type}.
Context `{A3CModel Model Obs Action Seed}.
Variable cfg : config State Obs.

Local Abbreviation agent := (agent Model Obs).

Lemma length_reversed_range (a b : Z) :
  length (reversed_range a b) = Z.to_nat (b - a).
Proof. unfold reversed_range. rewrite length_rev, length_seqZ. reflexivity. Qed.

(** [update] returns, and the return it computed for window position [k]
    is [closed gamma r R0 n k]; [n] is the length of the window, [r] its
    rewards and [R0] the bootstrap value. *)
Definition returns_match
    (closed : Q -> (nat -> Q) -> Q -> nat -> nat -> Q)
    (sv : option Obs) (s : agent) : Prop :=
  let n := Z.to_nat (t s - t_start s) in
  let R0 := bootstrap_value (model s) sv in
  let r := window_reward (past_rewards s) (t_start s) in
  exists u s',
    update cfg sv s = (Ok u, s') /\
    u_bootstrap u = R0 /\
    length (u_steps u) = n /\
    forall k, (k < n)%nat ->
      exists e, u_steps u !! (n - 1 - k)%nat = Some e /\
                e_index e = (t_start s + Z.of_nat k)%Z /\
                e_reward e = r k /\
                e_R e == closed (gamma cfg) r R0 n k.

(** C1 (as amended): with the average-reward mode disabled, for a window of
    length n with bootstrap value R0 and stored rewards r_0 .. r_(n-1),
    [update] returns and the return it computes for step [t_start + k] is
    [sum_(j=k)^(n-1) gamma^(j-k) * r_j + gamma^(n-k) * R0]. *)
Theorem update_returns_closed_form (sv : option Obs) (s : agent) :
  use_average_reward cfg = false ->
  window_ready cfg s ->
  returns_match discounted_return sv s.
Proof.
  intros Havg Hready. pose proof Hready as [Hlt _].
  destruct (proj2 (update_Ok_iff cfg sv s) Hready) as (u & s' & Hupd).
  destruct (update_Ok_inv cfg sv s s' u Hupd)
    as (l & s1 & _ & _ & _ & Hu & _ & Hch).
  unfold returns_match. exists u, s'. split; [exact Hupd|].
  split; [rewrite Hu; apply make_record_steps|].
  set (n := Z.to_nat (t s - t_start s)).
  assert (Ht : t s = (t_start s + Z.of_nat n)%Z) by (subst n; lia).
  split.
  - rewrite <- (length_fmap e_index), (chain_indices _ _ _ _ _ _ _ _ _ Hch).
    apply length_reversed_range.
  - rewrite Ht in Hch. intros k Hk.
    exact (chain_returns cfg _ _ _ _ Havg _ _ _ _ _ Hch k Hk).
Qed.

(** Entries whose indices are those of the loop over a window are as many
    as the window is long, and the step [i] of the window is the entry at
    position [b - 1 - i]. *)
Lemma steps_cover_window (es : list step_entry) (a b : Z) :
  e_index <$> es = reversed_range a b ->
  length es = Z.to_nat (b - a) /\
  forall i, (a <= i < b)%Z ->
    exists e, es !! Z.to_nat (b - 1 - i) = Some e /\ e_index e = i.
Proof.
  intros Hidx.
  assert (Hlen : length es = Z.to_nat (b - a)).
  { rewrite <- (length_fmap e_index), Hidx. apply length_reversed_range. }
  split; [exact Hlen|]. intros i Hi.
  destruct (lookup_lt_is_Some_2 es (Z.to_nat (b - 1 - i))) as [e He];
    [rewrite Hlen; lia|].
  exists e. split; [exact He|].
  assert (Hl : (e_index <$> es) !! Z.to_nat (b - 1 - i) = Some (e_index e)).
  { rewrite list_lookup_fmap, He. reflexivity. }
  pose proof (reversed_range_lookup a (Z.to_nat (b - a))
                (Z.to_nat (b - 1 - i)) ltac:(lia)) as Hrl.
  replace (a + Z.of_nat (Z.to_nat (b - a)))%Z with b in Hrl by lia.
  rewrite Hidx, Hrl in Hl. injection Hl as <-. lia.
Qed.

(** C2: with the average-reward mode enabled [update] processes every step
    of the window, once each, in strictly descending index order from
    [t - 1] down to [t_start] (there are [t - t_start] iterations and the
    step [i] is the iteration number [t - 1 - i]); the
    baseline read for step [i] is the initial baseline plus the increments
    [tau * advantage] of exactly the steps of index greater than [i]; the
    advantage of step [i] is computed from the return that has this baseline
    subtracted; the increment of step [i] is made right after, so the next
    step reads it, and the baseline [update] leaves has all the
    increments. *)
Theorem baseline_update_ordering (sv : option Obs) (s : agent) :
  use_average_reward cfg = true ->
  window_ready cfg s ->
  exists u s',
    update cfg sv s = (Ok u, s') /\
    e_index <$> u_steps u = reversed_range (t_start s) (t s) /\
    length (u_steps u) = Z.to_nat (t s - t_start s) /\
    (forall i, (t_start s <= i < t s)%Z ->
       exists e, u_steps u !! Z.to_nat (t s - 1 - i) = Some e /\
                 e_index e = i) /\
    (forall p e, u_steps u !! p = Some e ->
       e_index e = (t s - 1 - Z.of_nat p)%Z) /\
    (forall e, e ∈ u_steps u ->
       e_baseline e
       == average_reward s
          + average_reward_tau cfg
            * sumQ (e_advantage <$>
                    filter (fun x => (e_index e < e_index x)%Z) (u_steps u))) /\
    (forall p e, u_steps u !! p = Some e ->
       past_rewards s !! e_index e = Some (e_reward e) /\
       past_values s !! e_index e = Some (e_value e) /\
       e_R e = R_before (u_bootstrap u) (u_steps u) p * gamma cfg
               + e_reward e - e_baseline e /\
       e_advantage e = e_R e - e_value e) /\
    (forall p e, u_steps u !! p = Some e ->
       match u_steps u !! S p with
       | Some e' =>
           e_baseline e'
           = e_baseline e + average_reward_tau cfg * e_advantage e
       | None =>
           average_reward s'
           = e_baseline e + average_reward_tau cfg * e_advantage e
       end) /\
    average_reward s'
    == average_reward s
       + average_reward_tau cfg * sumQ (e_advantage <$> u_steps u).
Proof.
  intros Havg Hready. pose proof Hready as [Hlt _].
  destruct (proj2 (update_Ok_iff cfg sv s) Hready) as (u & s' & Hupd).
  destruct (update_Ok_inv cfg sv s s' u Hupd)
    as (l & s1 & _ & _ & _ & Hu & _ & Hch).
  exists u, s'. split; [exact Hupd|].
  set (n := Z.to_nat (t s - t_start s)).
  assert (Ht : t s = (t_start s + Z.of_nat n)%Z) by (subst n; lia).
  pose proof (chain_indices _ _ _ _ _ _ _ _ _ Hch) as Hidx.
  assert (Hboot : u_bootstrap u = bootstrap_value (model s) sv).
  { rewrite Hu. apply make_record_steps. }
  assert (Hnr : forall R0 b r, next_R cfg R0 b r = R0 * gamma cfg + r - b).
  { intros. unfold next_R. rewrite Havg. reflexivity. }
  assert (Hnb : forall b x,
             next_baseline cfg b x = b + average_reward_tau cfg * x).
  { intros. unfold next_baseline. rewrite Havg. reflexivity. }
  split; [exact Hidx|].
  destruct (steps_cover_window _ _ _ Hidx) as [Hlen Hcov].
  split; [exact Hlen|]. split; [exact Hcov|].
  split; [|split; [|split; [|split]]].
  - intros p e He.
    assert (Hp : (p < n)%nat).
    { apply lookup_lt_Some in He.
      rewrite <- (length_fmap e_index), Hidx, length_reversed_range in He.
      exact He. }
    assert (Hi : (e_index <$> u_steps u) !! p = Some (e_index e)).
    { rewrite list_lookup_fmap, He. reflexivity. }
    rewrite Hidx, Ht, reversed_range_lookup in Hi by exact Hp.
    injection Hi as <-. lia.
  - rewrite Ht in Hch.
    destruct (chain_baseline cfg _ _ _ _ Havg _ _ _ _ _ Hch) as (_ & _ & Hb).
    exact Hb.
  - intros p e He.
    destruct (chain_recurrence cfg _ _ _ _ _ _ _ _ Hch p e He)
      as (H1 & H2 & H3 & H4).
    rewrite Hnr in H3. rewrite Hboot. auto.
  - intros p e He.
    destruct (chain_baseline_step cfg _ _ _ _ _ _ _ _ Hch) as (_ & _ & Hs).
    specialize (Hs p e He). rewrite Hnb in Hs. exact Hs.
  - rewrite Ht in Hch.
    destruct (chain_baseline cfg _ _ _ _ Havg _ _ _ _ _ Hch) as (Hb & _).
    exact Hb.
Qed.

(** *** The transforms of the losses, as the specification lists them *)

(** 1. Scale the policy loss by [pi_loss_coef] if it is not 1. *)
Definition scale_policy_loss (pl : Q) : Q :=
  if Qeq_bool (pi_loss_coef cfg) 1 then pl else pl * pi_loss_coef cfg.

(** 2. Scale the value loss by [v_loss_coef] if it is not 1. *)
Definition scale_value_loss (vl : Q) : Q :=
  if Qeq_bool (v_loss_coef cfg) 1 then vl else vl * v_loss_coef cfg.

(** 3. If "keep loss scale same" is enabled and the window is shorter than
    the horizon, multiply both losses by [horizon / window_length]. *)
Definition keep_scale (n : Z) (pv : Q * Q) : Q * Q :=
  if keep_loss_scale_same cfg && (n <? t_max cfg)%Z
  then (fst pv * (inject_Z (t_max cfg) / inject_Z n),
        snd pv * (inject_Z (t_max cfg) / inject_Z n))
  else pv.

(** 4. If "normalize by horizon" is enabled, divide both losses by
    [window_length]. *)
Definition normalize (n : Z) (pv : Q * Q) : Q * Q :=
  if normalize_grad_by_t_max cfg
  then (fst pv / inject_Z n, snd pv / inject_Z n)
  else pv.

Definition spec_loss_transforms (n : Z) (pl vl : Q) : Q * Q :=
  normalize n (keep_scale n (scale_policy_loss pl, scale_value_loss vl)).

(** The factors the third and the fourth transform multiply by. *)
Definition keep_factor (n : Z) : Q :=
  if keep_loss_scale_same cfg && (n <? t_max cfg)%Z
  then inject_Z (t_max cfg) / inject_Z n
  else 1.

Definition normalize_factor (n : Z) : Q :=
  if normalize_grad_by_t_max cfg then / inject_Z n else 1.

Lemma loss_transforms_spec (n : Z) (pl vl : Q) :
  loss_transforms cfg n pl vl = spec_loss_transforms n pl vl.
Proof.
  unfold loss_transforms, spec_loss_transforms, normalize, keep_scale,
    scale_policy_loss, scale_value_loss.
  destruct (Qeq_bool (pi_loss_coef cfg) 1), (Qeq_bool (v_loss_coef cfg) 1),
    (keep_loss_scale_same cfg && (n <? t_max cfg)%Z),
    (normalize_grad_by_t_max cfg); reflexivity.
Qed.

Lemma spec_loss_transforms_factors (n : Z) (pl vl : Q) :
  fst (spec_loss_transforms n pl vl)
  == pl * pi_loss_coef cfg * keep_factor n * normalize_factor n /\
  snd (spec_loss_transforms n pl vl)
  == vl * v_loss_coef cfg * keep_factor n * normalize_factor n.
Proof.
  unfold spec_loss_transforms, normalize, keep_scale, scale_policy_loss,
    scale_value_loss, keep_factor, normalize_factor.
  destruct (Qeq_bool (pi_loss_coef cfg) 1) eqn:Hp,
    (Qeq_bool (v_loss_coef cfg) 1) eqn:Hv;
    try (apply Qeq_bool_eq in Hp); try (apply Qeq_bool_eq in Hv);
    destruct (keep_loss_scale_same cfg && (n <? t_max cfg)%Z),
      (normalize_grad_by_t_max cfg); cbn [fst snd]; unfold Qdiv;
    try rewrite Hp; try rewrite Hv; split; ring.
Qed.

(** C3: the losses [update] reports are the accumulated ones, transformed
    in the order of the specification: the policy coefficient, the value
    coefficient, "keep loss scale same" on a window shorter than the
    horizon, then "normalize by horizon".  The third transform multiplies
    both losses by exactly [t_max / n] when it applies, and on a window as
    long as the horizon it changes nothing, which is the factor 1 that
    [t_max / n] is there. *)
Theorem loss_transform_order (sv : option Obs) (s : agent) :
  window_ready cfg s ->
  let n := (t s - t_start s)%Z in
  exists u s' l s1,
    update cfg sv s = (Ok u, s') /\
    update_loop cfg (reversed_range (t_start s) (t s))
      (loop_start (bootstrap_value (model s) sv)) s = (Ok l, s1) /\
    (u_pi_loss u, u_v_loss u)
    = normalize n
        (keep_scale n (scale_policy_loss (pi_loss l),
                       scale_value_loss (v_loss l))) /\
    u_pi_loss u
    == pi_loss l * pi_loss_coef cfg * keep_factor n * normalize_factor n /\
    u_v_loss u
    == v_loss l * v_loss_coef cfg * keep_factor n * normalize_factor n /\
    (keep_loss_scale_same cfg = true -> (n < t_max cfg)%Z ->
     keep_factor n = inject_Z (t_max cfg) / inject_Z n) /\
    (n = t_max cfg ->
     (forall pv, keep_scale n pv = pv) /\
     keep_factor n = 1 /\
     inject_Z (t_max cfg) / inject_Z n == 1).
Proof.
  intros Hready n. pose proof Hready as [Hlt _].
  destruct (proj2 (update_Ok_iff cfg sv s) Hready) as (u & s' & Hupd).
  destruct (update_Ok_inv cfg sv s s' u Hupd)
    as (l & s1 & _ & Hloop & _ & Hu & _ & _).
  exists u, s', l, s1.
  assert (Hpv : (u_pi_loss u, u_v_loss u)
                = spec_loss_transforms n (pi_loss l) (v_loss l)).
  { rewrite Hu, <- loss_transforms_spec. apply make_record_steps. }
  destruct (spec_loss_transforms_factors n (pi_loss l) (v_loss l))
    as [Hfp Hfv].
  rewrite <- Hpv in Hfp, Hfv. cbn [fst snd] in Hfp, Hfv.
  split; [exact Hupd|]. split; [exact Hloop|]. split; [exact Hpv|].
  split; [exact Hfp|]. split; [exact Hfv|]. split.
  - intros Hkeep Hn. unfold keep_factor. rewrite Hkeep.
    replace (n <? t_max cfg)%Z with true by lia. reflexivity.
  - intros Hn. unfold keep_scale, keep_factor.
    replace (n <? t_max cfg)%Z with false by lia.
    rewrite andb_false_r. split; [reflexivity|]. split; [reflexivity|].
    rewrite <- Hn. field. intros Hz.
    unfold Qeq in Hz. cbn in Hz. unfold n in Hz. lia.
Qed.

(** C4: after an [update] that returned, [t_start] equals [t] and the five
    dictionaries are empty. *)
Theorem update_clears_window (sv : option Obs) (s s' : agent)
    (u : update_record) :
  update cfg sv s = (Ok u, s') ->
  t_start s' = t s' /\
  t s' = t s /\
  past_action_log_prob s' = ∅ /\
  past_action_entropy s' = ∅ /\
  past_states s' = ∅ /\
  past_rewards s' = ∅ /\
  past_values s' = ∅.
Proof.
  intros Hupd.
  destruct (update_Ok_cleared cfg sv s s' u Hupd) as [Hs Ht].
  rewrite Hs. cbn. repeat split. rewrite Hs in Ht. exact Ht.
Qed.

End Update.

(** The windows of [ConstModel] are ready: each key of [0, n) is in every
    dictionary. *)
Ltac solve_has_entry :=
  unfold has_entry; repeat split; try intros _; vm_compute; eexists; reflexivity.

Ltac solve_window_ready :=
  split;
  [ vm_compute; reflexivity
  | let i := fresh "i" in
    let Hi := fresh "Hi" in
    intros i Hi; cbn in Hi;
    first
      [ assert (i = 0%Z) as -> by lia
      | assert (i = 0%Z \/ i = 1%Z \/ i = 2%Z) as [-> | [-> | ->]] by lia ];
    solve_has_entry ].

Lemma update_returns_closed_form_witness :
  returns_match ConstModel.cfg discounted_return None (ConstModel.window 3).
Proof.
  apply update_returns_closed_form; [reflexivity|solve_window_ready].
Defined.

(** C1 as the specification states it fails: on a window of one step with
    reward 1, bootstrap 0 and gamma = 9/10 the computed return is 1, not
    gamma^1 * 1 + gamma^1 * 0 = 9/10. *)
Lemma spec_return_exponent_counterexample :
  use_average_reward ConstModel.cfg = false /\
  window_ready ConstModel.cfg (ConstModel.window 1) /\
  ~ returns_match ConstModel.cfg spec_discounted_return None
      (ConstModel.window 1).
Proof.
  split; [reflexivity|]. split; [solve_window_ready|].
  intros (u & s' & Hupd & _ & _ & Hk).
  destruct (Hk 0%nat) as (e & He & _ & _ & HR); [vm_compute; lia|].
  vm_compute in Hupd. injection Hupd as <- <-.
  vm_compute in He. injection He as <-.
  vm_compute in HR. discriminate HR.
Qed.

Lemma baseline_update_ordering_witness :
  use_average_reward ConstModel.cfg_avg = true /\
  window_ready ConstModel.cfg_avg (ConstModel.window 3) /\
  exists u s',
    update ConstModel.cfg_avg None (ConstModel.window 3) = (Ok u, s') /\
    length (u_steps u) = 3%nat /\
    average_reward s'
    == 0 + (1 # 100) * sumQ (e_advantage <$> u_steps u).
Proof.
  split; [reflexivity|]. split; [solve_window_ready|].
  destruct (baseline_update_ordering ConstModel.cfg_avg None
              (ConstModel.window 3))
    as (u & s' & Hupd & _ & Hlen & _ & _ & _ & _ & _ & Hfinal);
    [reflexivity|solve_window_ready|].
  exists u, s'. split; [exact Hupd|]. split; [exact Hlen|exact Hfinal].
Defined.

Lemma loss_transform_order_witness :
  window_ready ConstModel.cfg (ConstModel.window 3) /\
  exists u s',
    update ConstModel.cfg None (ConstModel.window 3) = (Ok u, s') /\
    inject_Z (t_max ConstModel.cfg) / inject_Z 3 == 1.
Proof.
  split; [solve_window_ready|].
  destruct (loss_transform_order ConstModel.cfg None (ConstModel.window 3))
    as (u & s' & l & s1 & Hupd & _ & _ & _ & _ & _ & Hfull);
    [solve_window_ready|].
  exists u, s'. split; [exact Hupd|].
  destruct Hfull as (_ & _ & Hone); [reflexivity|exact Hone].
Defined.

Lemma update_clears_window_witness :
  exists u s',
    update ConstModel.cfg None (ConstModel.window 3) = (Ok u, s') /\
    t_start s' = t s' /\ past_rewards s' = ∅.
Proof.
  eexists. eexists. split; [vm_compute; reflexivity|].
  destruct (update_clears_window ConstModel.cfg None (ConstModel.window 3)
              _ _ ltac:(vm_compute; reflexivity))
    as (Hstart & _ & _ & _ & _ & Hrw & _).
  split; [exact Hstart|exact Hrw].
Defined.

(** ** The control surface *)

Section Control.

Context {Model State Obs Action Seed : Type}.
Context `{A3CModel Model Obs Action Seed}.
Variable cfg : config State Obs.

Local Abbreviation agent := (agent Model Obs).
Local Abbreviation op := (op (State := State) (Seed := Seed)).

(** The reward as [store_reward] writes it. *)
Definition stored_reward (r : Q) : Q :=
  if clip_reward cfg then np_clip r (-1) 1 else r.

(** The agent once [store_reward] has run. *)
Definition with_reward (r : Q) (s : agent) : agent :=
  set_past_rewards (fun d => <[(t s - 1)%Z := stored_reward r]> d) s.

Lemma store_reward_eq (r : Q) (s : agent) :
  store_reward cfg r s = (Ok tt, with_reward r s).
Proof. reflexivity. Qed.

(** Lines 234-241 of [act_and_train]: the action chosen and the agent with
    the new entry recorded at index [t]. *)
Definition record_entry (sv : Obs) (seed : Seed) (s : agent) : Action * agent :=
  let '(pout, vout, m') := pi_and_v (model s) sv in
  (sample pout seed,
   {| model := m'; t := (t s + 1)%Z; t_start := t_start s;
      past_action_log_prob :=
        <[t s := log_prob pout (sample pout seed)]> (past_action_log_prob s);
      past_action_entropy := <[t s := entropy pout]> (past_action_entropy s);
      past_states := <[t s := sv]> (past_states s);
      past_rewards := past_rewards s;
      past_values := <[t s := vout]> (past_values s);
      average_reward := average_reward s |}).

Lemma act_and_train_unfold (st : State) (r : Q) (seed : Seed) (s : agent) :
  act_and_train cfg st r seed s
  = if (t s - t_start s =? t_max cfg)%Z
    then
      match update cfg (Some (phi cfg st)) (with_reward r s) with
      | (Ok u, s1) =>
          (Ok (fst (record_entry (phi cfg st) seed s1), Some u),
           snd (record_entry (phi cfg st) seed s1))
      | (Raise e, s1) => (Raise e, s1)
      end
    else
      (Ok (fst (record_entry (phi cfg st) seed (with_reward r s)), None),
       snd (record_entry (phi cfg st) seed (with_reward r s))).
Proof.
  unfold act_and_train. unfold bind at 1. rewrite store_reward_eq.
  unfold bind at 1. unfold gets at 1. unfold bind at 1. unfold gets at 1.
  cbn [with_reward set_past_rewards t t_start].
  fold (with_reward r s).
  destruct (t s - t_start s =? t_max cfg)%Z.
  - unfold bind at 1. unfold bind at 1.
    destruct (update cfg (Some (phi cfg st)) (with_reward r s))
      as [[u|e] s1]; [|reflexivity].
    unfold ret at 1. unfold record_entry, bind, gets, modify, ret.
    cbn [set_past_states model].
    destruct (pi_and_v (model s1) (phi cfg st)) as [[pout vout] m'].
    reflexivity.
  - unfold bind at 1. unfold ret at 1.
    unfold record_entry, bind, gets, modify, ret.
    cbn [set_past_states model].
    destruct (pi_and_v (model (with_reward r s)) (phi cfg st))
      as [[pout vout] m'].
    reflexivity.
Qed.

Lemma stop_episode_and_train_unfold (st : State) (r : Q) (done : bool)
    (s : agent) :
  stop_episode_and_train cfg st r done s
  = match update cfg (if done then None else Some (phi cfg st))
            (with_reward r s) with
    | (Ok u, s1) => (Ok u, set_model reset_state s1)
    | (Raise e, s1) => (Raise e, s1)
    end.
Proof.
  unfold stop_episode_and_train. unfold bind at 1. rewrite store_reward_eq.
  unfold bind, modify, ret.
  destruct done;
    destruct (update cfg _ (with_reward r s)) as [[u|e] s1]; reflexivity.
Qed.

(** *** What [update] leaves when it raises *)

Lemma update_Raise_inv (sv : option Obs) (s s' : agent) (e : exn) :
  update cfg sv s = (Raise e, s') ->
  (e = AssertionError /\ s' = s /\ (t s <= t_start s)%Z) \/
  (e = KeyError /\ (t_start s < t s)%Z /\ same_but_baseline s s' /\
   ~ window_ready cfg s).
Proof.
  intros Hupd.
  assert (Hnot : (t_start s < t s)%Z -> ~ window_ready cfg s).
  { intros _ Hready. apply (update_Ok_iff cfg sv s) in Hready.
    destruct Hready as (u & s2 & Hok). rewrite Hok in Hupd. discriminate. }
  rewrite update_unfold in Hupd.
  destruct (t_start s <? t s)%Z eqn:Hlt.
  - right.
    pose proof (update_loop_frame cfg (reversed_range (t_start s) (t s))
                  (loop_start (bootstrap_value (model s) sv)) s) as [Hf He].
    destruct (update_loop _ _ _ _) as [[l|e1] s1]; [discriminate|].
    injection Hupd as <- <-. cbn in Hf, He.
    split; [apply He; reflexivity|]. split; [lia|]. split; [exact Hf|].
    apply Hnot. lia.
  - left. injection Hupd as <- <-. split; [reflexivity|].
    split; [reflexivity|lia].
Qed.

(** *** The invariant of the reachable states *)

(** Every step of the window has its entry in the four dictionaries that
    [act_and_train] writes when it records the step, and every step but the
    last has its reward. *)
Definition keys_ok (s : agent) : Prop :=
  (t_start s <= t s)%Z /\
  (forall i, (t_start s <= i < t s)%Z ->
     is_Some (past_values s !! i) /\
     is_Some (past_action_log_prob s !! i) /\
     is_Some (past_action_entropy s !! i) /\
     is_Some (past_states s !! i)) /\
  (forall i, (t_start s <= i < t s - 1)%Z -> is_Some (past_rewards s !! i)).

Definition inv (s : agent) : Prop :=
  keys_ok s /\ ((0 <= t_max cfg)%Z -> (t s - t_start s <= t_max cfg)%Z).

(** The same with the reward of the last step. *)
Definition keys_full (s : agent) : Prop :=
  (t_start s <= t s)%Z /\
  (forall i, (t_start s <= i < t s)%Z ->
     is_Some (past_values s !! i) /\
     is_Some (past_action_log_prob s !! i) /\
     is_Some (past_action_entropy s !! i) /\
     is_Some (past_states s !! i)) /\
  (forall i, (t_start s <= i < t s)%Z -> is_Some (past_rewards s !! i)).

Lemma with_reward_keys_full (r : Q) (s : agent) :
  keys_ok s -> keys_full (with_reward r s).
Proof.
  intros (Hle & Hkeys & Hrw). unfold keys_full, with_reward. cbn.
  split; [exact Hle|]. split; [exact Hkeys|].
  intros i Hi. apply lookup_insert_is_Some'.
  destruct (decide ((t s - 1)%Z = i)); [left; assumption|].
  right. apply Hrw. lia.
Qed.

Lemma keys_full_ok (s : agent) : keys_full s -> keys_ok s.
Proof.
  intros (Hle & Hkeys & Hrw). split; [exact Hle|]. split; [exact Hkeys|].
  intros i Hi. apply Hrw. lia.
Qed.

Lemma keys_full_ready (s : agent) :
  keys_full s -> (t_start s < t s)%Z -> window_ready cfg s.
Proof.
  intros (Hle & Hkeys & Hrw) Hlt. split; [exact Hlt|].
  intros i Hi. destruct (Hkeys i Hi) as (Hv & Hlp & Hen & Hst).
  unfold has_entry. auto using Hrw.
Qed.

Lemma record_entry_fields (sv : Obs) (seed : Seed) (s : agent) :
  let s' := snd (record_entry sv seed s) in
  let pv := pi_and_v (model s) sv in
  fst (record_entry sv seed s) = sample (fst (fst pv)) seed /\
  model s' = snd pv /\
  t s' = (t s + 1)%Z /\
  t_start s' = t_start s /\
  past_action_log_prob s'
  = <[t s := log_prob (fst (fst pv)) (sample (fst (fst pv)) seed)]>
      (past_action_log_prob s) /\
  past_action_entropy s'
  = <[t s := entropy (fst (fst pv))]> (past_action_entropy s) /\
  past_states s' = <[t s := sv]> (past_states s) /\
  past_rewards s' = past_rewards s /\
  past_values s' = <[t s := snd (fst pv)]> (past_values s) /\
  average_reward s' = average_reward s.
Proof.
  unfold record_entry.
  destruct (pi_and_v (model s) sv) as [[pout vout] m']. cbn. repeat split.
Qed.

Lemma record_entry_keys_ok (sv : Obs) (seed : Seed) (s : agent) :
  keys_full s -> keys_ok (snd (record_entry sv seed s)).
Proof.
  intros (Hle & Hkeys & Hrw).
  destruct (record_entry_fields sv seed s)
    as (_ & _ & Ht & Hts & Hlp & Hen & Hst & Hr & Hv & _).
  unfold keys_ok. rewrite Ht, Hts, Hlp, Hen, Hst, Hr, Hv.
  split; [lia|]. split.
  - intros i Hi. rewrite !lookup_insert_is_Some'.
    destruct (decide (t s = i)) as [?|Hne]; [auto|].
    destruct (Hkeys i) as (? & ? & ? & ?); [lia|]. auto.
  - intros i Hi. apply Hrw. lia.
Qed.

Lemma update_Ok_keys_full (sv : option Obs) (s s' : agent) (u : update_record) :
  update cfg sv s = (Ok u, s') ->
  keys_full s' /\ t s' = t s /\ t_start s' = t s.
Proof.
  intros Hupd.
  destruct (update_Ok_cleared cfg sv s s' u Hupd) as [Hs Ht].
  assert (Hts : t_start s' = t s') by (rewrite Hs; reflexivity).
  unfold keys_full. rewrite Hts. repeat split; try lia; intros i Hi; lia.
Qed.

Lemma inv_init (m : Model) : inv (init m).
Proof.
  unfold inv, keys_ok, init. cbn.
  repeat split; try lia; intros i Hi; lia.
Qed.

Lemma keys_ok_set_model (f : Model -> Model) (s : agent) :
  keys_ok s -> keys_ok (set_model f s).
Proof. unfold keys_ok. cbn. tauto. Qed.

Lemma keys_ok_same (s s' : agent) :
  same_but_baseline s s' -> keys_ok s -> keys_ok s'.
Proof. unfold same_but_baseline, keys_ok. intros ->. cbn. tauto. Qed.

Lemma inv_act_and_train (st : State) (r : Q) (seed : Seed) (s : agent) :
  inv s -> inv (snd (act_and_train cfg st r seed s)).
Proof.
  intros [Hk Hmax]. pose proof (with_reward_keys_full r s Hk) as Hfull.
  rewrite act_and_train_unfold.
  destruct (t s - t_start s =? t_max cfg)%Z eqn:Hlen.
  - destruct (update cfg (Some (phi cfg st)) (with_reward r s))
      as [[u|e] s1] eqn:Hupd.
    + destruct (update_Ok_keys_full _ _ _ _ Hupd) as (Hf1 & Ht1 & Hts1).
      destruct (update_Ok_inv cfg _ _ _ _ Hupd) as (_ & _ & Hlt & _).
      cbn [snd]. split; [apply record_entry_keys_ok; exact Hf1|].
      destruct (record_entry_fields (phi cfg st) seed s1)
        as (_ & _ & Ht & Hts & _).
      rewrite Ht, Hts, Ht1, Hts1. cbn in Hlt. cbn. lia.
    + cbn [snd].
      destruct (update_Raise_inv _ _ _ _ Hupd)
        as [(_ & -> & _)|(_ & _ & Hsame & _)].
      * split; [apply keys_full_ok; exact Hfull|exact Hmax].
      * split; [eapply keys_ok_same; [exact Hsame|];
                apply keys_full_ok; exact Hfull|].
        destruct (same_but_baseline_fields _ _ Hsame) as (_ & -> & -> & _).
        exact Hmax.
  - cbn [snd]. split; [apply record_entry_keys_ok; exact Hfull|].
    destruct (record_entry_fields (phi cfg st) seed (with_reward r s))
      as (_ & _ & Ht & Hts & _).
    rewrite Ht, Hts. cbn. intros H0. specialize (Hmax H0). lia.
Qed.

Lemma inv_stop_episode_and_train (st : State) (r : Q) (done : bool)
    (s : agent) :
  inv s -> inv (snd (stop_episode_and_train cfg st r done s)).
Proof.
  intros [Hk Hmax]. pose proof (with_reward_keys_full r s Hk) as Hfull.
  rewrite stop_episode_and_train_unfold.
  destruct (update cfg _ (with_reward r s)) as [[u|e] s1] eqn:Hupd.
  - destruct (update_Ok_keys_full _ _ _ _ Hupd) as (Hf1 & Ht1 & Hts1).
    cbn [snd]. split.
    + apply keys_ok_set_model, keys_full_ok. exact Hf1.
    + cbn. rewrite Ht1, Hts1. cbn. lia.
  - cbn [snd].
    destruct (update_Raise_inv _ _ _ _ Hupd)
      as [(_ & -> & _)|(_ & _ & Hsame & _)].
    + split; [apply keys_full_ok; exact Hfull|exact Hmax].
    + split; [eapply keys_ok_same; [exact Hsame|];
              apply keys_full_ok; exact Hfull|].
      destruct (same_but_baseline_fields _ _ Hsame) as (_ & -> & -> & _).
      exact Hmax.
Qed.

Lemma act_eq (obs : State) (seed : Seed) (s : agent) :
  act cfg obs seed s
  = (Ok (if act_deterministically cfg
         then most_probable (fst (fst (pi_and_v (model s) (phi cfg obs))))
         else sample (fst (fst (pi_and_v (model s) (phi cfg obs)))) seed),
     set_model (fun _ => snd (pi_and_v (model s) (phi cfg obs))) s).
Proof.
  unfold act, bind, gets, modify, ret.
  destruct (pi_and_v (model s) (phi cfg obs)) as [[pout vout] m'].
  destruct (act_deterministically cfg); reflexivity.
Qed.

Lemma inv_exec (o : op) (s : agent) : inv s -> inv (snd (exec cfg o s)).
Proof.
  intros Hinv. destruct o as [st r seed|obs seed|st r done|]; cbn [exec];
    unfold bind.
  - pose proof (inv_act_and_train st r seed s Hinv) as Hi.
    destruct (act_and_train cfg st r seed s) as [[x|e] s1]; exact Hi.
  - rewrite act_eq. cbn. destruct Hinv as [Hk Hmax].
    split; [apply keys_ok_set_model; exact Hk|exact Hmax].
  - pose proof (inv_stop_episode_and_train st r done s Hinv) as Hi.
    destruct (stop_episode_and_train cfg st r done s) as [[x|e] s1]; exact Hi.
  - cbn. destruct Hinv as [Hk Hmax].
    split; [apply keys_ok_set_model; exact Hk|exact Hmax].
Qed.

Lemma reachable_inv (s : agent) : reachable cfg s -> inv s.
Proof.
  induction 1 as [m|o s _ IH]; [apply inv_init|apply inv_exec; exact IH].
Qed.

(** The first step [update] processes is [t - 1], with the reward the
    dictionary has there. *)
Lemma update_first_entry (sv : option Obs) (s s' : agent) (u : update_record) :
  update cfg sv s = (Ok u, s') ->
  exists e, u_steps u !! 0%nat = Some e /\
            e_index e = (t s - 1)%Z /\
            past_rewards s !! (t s - 1)%Z = Some (e_reward e).
Proof.
  intros Hupd.
  destruct (update_Ok_inv cfg sv s s' u Hupd)
    as (l & s1 & Hlt & _ & _ & _ & _ & Hch).
  pose proof (chain_indices _ _ _ _ _ _ _ _ _ Hch) as Hidx.
  set (n := Z.to_nat (t s - t_start s)).
  assert (Ht : t s = (t_start s + Z.of_nat n)%Z) by (subst n; lia).
  assert (Hn : (0 < n)%nat) by (subst n; lia).
  destruct (u_steps u) as [|e es] eqn:Hsteps.
  { apply (f_equal length) in Hidx.
    rewrite length_reversed_range in Hidx. cbn in Hidx. lia. }
  exists e. split; [reflexivity|].
  assert (Hi : e_index e = (t s - 1)%Z).
  { apply (f_equal (fun l => l !! 0%nat)) in Hidx.
    rewrite Ht, reversed_range_lookup in Hidx by exact Hn.
    cbn in Hidx. injection Hidx as ->. lia. }
  split; [exact Hi|].
  destruct (chain_recurrence cfg _ _ _ _ _ _ _ _ Hch 0%nat e eq_refl)
    as (Hr & _).
  rewrite Hi in Hr. exact Hr.
Qed.

(** C5 (as amended): on a reachable state, with a horizon of at least one
    step ([t_max >= 1]), [act_and_train] returns; it makes an update if and only if the window
    length [t - t_start] equals [t_max] at entry; that update is the one of
    the window with the reward just stored, bootstrapped from the current
    observation as a non-terminal state, and the new entry is recorded on
    the agent the update left.  The window of a reachable state is never
    longer than [t_max].  In the scenario of horizon 3 with the constant
    model (three [act_and_train] calls, the rewards 1, 1, 1 of the three
    steps arriving with the second, the third and the terminal call, whose
    [done] is set) no update is made during the three [act_and_train]
    calls and exactly one at the terminal call, with the returns
    [1 + 0.9 + 0.81, 1 + 0.9, 1]. *)
Theorem act_and_train_update_at_horizon (st : State) (r : Q) (seed : Seed)
    (s : agent) :
  (0 < t_max cfg)%Z ->
  reachable cfg s ->
  (0 <= t s - t_start s <= t_max cfg)%Z /\
  (exists a upd s',
     act_and_train cfg st r seed s = (Ok (a, upd), s') /\
     (is_Some upd <-> (t s - t_start s = t_max cfg)%Z) /\
     (forall u, upd = Some u ->
        exists s1,
          update cfg (Some (phi cfg st)) (with_reward r s) = (Ok u, s1) /\
          (a, s') = record_entry (phi cfg st) seed s1 /\
          u_bootstrap u = snd (fst (pi_and_v (model s) (phi cfg st))) /\
          e_index <$> u_steps u = reversed_range (t_start s) (t s) /\
          t_start s' = t s) /\
     (upd = None ->
        (a, s') = record_entry (phi cfg st) seed (with_reward r s) /\
        t_start s' = t_start s) /\
     t s' = (t s + 1)%Z /\
     (0 < t s' - t_start s' <= t_max cfg)%Z /\
     is_Some (past_values s' !! t s) /\
     past_states s' !! t s = Some (phi cfg st)) /\
  (forall r0 : Q,
     exists u s4,
       run ConstModel.cfg
         [ActAndTrain 0%Z r0 tt; ActAndTrain 0%Z 1 tt; ActAndTrain 0%Z 1 tt;
          StopEpisodeAndTrain 0%Z 1 true]
         ConstModel.fresh
       = ([Ok {| ev_action := Some 0%Z; ev_update := None |};
           Ok {| ev_action := Some 0%Z; ev_update := None |};
           Ok {| ev_action := Some 0%Z; ev_update := None |};
           Ok {| ev_action := None; ev_update := Some u |}], s4) /\
       Forall2 Qeq (rev (e_R <$> u_steps u))
         [1 + (9 # 10) + (81 # 100); 1 + (9 # 10); 1] /\
       t_start s4 = 3%Z /\ t s4 = 3%Z).
Proof.
  intros Hpos Hreach.
  destruct (reachable_inv s Hreach) as [Hk Hmax].
  pose proof Hk as (Hle & _). specialize (Hmax ltac:(lia)).
  pose proof (with_reward_keys_full r s Hk) as Hfull.
  split; [lia|]. split.
  - rewrite act_and_train_unfold.
    destruct (t s - t_start s =? t_max cfg)%Z eqn:Hlen.
    + assert (Hready : window_ready cfg (with_reward r s)).
      { apply keys_full_ready; [exact Hfull|]. cbn. lia. }
      destruct (proj2 (update_Ok_iff cfg (Some (phi cfg st)) _) Hready)
        as (u & s1 & Hupd).
      rewrite Hupd.
      destruct (update_Ok_keys_full _ _ _ _ Hupd) as (_ & Ht1 & Hts1).
      destruct (update_Ok_inv cfg _ _ _ _ Hupd)
        as (l & s2 & _ & _ & _ & Hu & _ & Hch).
      destruct (record_entry_fields (phi cfg st) seed s1)
        as (_ & _ & Ht & Hts & _ & _ & Hst & _ & Hv & _).
      cbn [with_reward set_past_rewards t t_start] in Ht1, Hts1.
      eexists _, (Some u), _. split; [reflexivity|].
      split; [split; [intros _; lia|eauto]|].
      split.
      { intros u' [= <-]. exists s1. split; [reflexivity|].
        split; [symmetry; apply surjective_pairing|].
        split; [rewrite Hu; apply make_record_steps|].
        split; [exact (chain_indices _ _ _ _ _ _ _ _ _ Hch)|].
        rewrite Hts, Hts1. reflexivity. }
      split; [discriminate|].
      rewrite Ht, Hts, Hv, Hst, Ht1, Hts1, !lookup_insert_eq.
      split; [reflexivity|]. split; [lia|]. split; [eauto|reflexivity].
    + destruct (record_entry_fields (phi cfg st) seed (with_reward r s))
        as (_ & _ & Ht & Hts & _ & _ & Hst & _ & Hv & _).
      cbn [with_reward set_past_rewards t t_start] in Ht, Hts.
      eexists _, None, _. split; [reflexivity|].
      split; [split; [intros [? [=]]|intros; lia]|].
      split; [discriminate|].
      split; [intros _; split; [symmetry; apply surjective_pairing|exact Hts]|].
      rewrite Ht, Hts, Hv, Hst.
      cbn [with_reward set_past_rewards t past_values past_states].
      rewrite !lookup_insert_eq.
      split; [reflexivity|]. split; [lia|]. split; [eauto|reflexivity].
  - intros r0. eexists. eexists.
    split; [vm_compute; reflexivity|].
    split; [|split; reflexivity].
    repeat constructor.
Qed.

(** *** The empty-window failure *)



(** C7 (as amended): when [stop_episode_and_train] or [act_and_train] fails
    on the assertion of [update], the window was empty and the agent is as
    before the call but for the reward dictionary: it has the reward of the
    call at [t - 1]. *)
Theorem failed_update_leaves_reward (r : Q) (s s' : agent) :
  (exists st done,
     stop_episode_and_train cfg st r done s = (Raise AssertionError, s')) \/
  (exists st seed,
     act_and_train cfg st r seed s = (Raise AssertionError, s')) ->
  (t s <= t_start s)%Z /\
  model s' = model s /\
  t s' = t s /\
  t_start s' = t_start s /\
  average_reward s' = average_reward s /\
  past_action_log_prob s' = past_action_log_prob s /\
  past_action_entropy s' = past_action_entropy s /\
  past_states s' = past_states s /\
  past_values s' = past_values s /\
  past_rewards s' = <[(t s - 1)%Z := stored_reward r]> (past_rewards s).
Proof.
  intros Hfail.
  assert (Hupd : exists sv,
            update cfg sv (with_reward r s) = (Raise AssertionError, s')).
  { destruct Hfail as [(st & done & Hop)|(st & seed & Hop)].
    - rewrite stop_episode_and_train_unfold in Hop.
      exists (if done then None else Some (phi cfg st)).
      destruct (update cfg _ (with_reward r s)) as [[u|e] s1];
        [discriminate|exact Hop].
    - rewrite act_and_train_unfold in Hop.
      exists (Some (phi cfg st)).
      destruct (t s - t_start s =? t_max cfg)%Z; [|discriminate].
      destruct (update cfg _ (with_reward r s)) as [[u|e] s1];
        [discriminate|].
      injection Hop as -> ->. reflexivity. }
  destruct Hupd as (sv & Hupd).
  destruct (update_Raise_inv _ _ _ _ Hupd)
    as [(_ & -> & Hle)|(Hkey & _)]; [|discriminate].
  cbn in Hle. cbn. repeat split. exact Hle.
Qed.

(** *** The reward stored *)

Lemma np_clip_cases (r : Q) :
  (r < -1 -> np_clip r (-1) 1 = -1) /\
  (-1 <= r <= 1 -> np_clip r (-1) 1 = r) /\
  (1 < r -> np_clip r (-1) 1 = 1).
Proof.
  unfold np_clip, Qmax, Qmin, GenericMinMax.gmax, GenericMinMax.gmin.
  destruct (r ?= -1) eqn:E1;
    [apply Qeq_alt in E1|apply Qlt_alt in E1|apply Qgt_alt in E1].
  - destruct (r ?= 1) eqn:E2;
      [apply Qeq_alt in E2|apply Qlt_alt in E2|apply Qgt_alt in E2];
      repeat split; intros; try reflexivity; lra.
  - assert (E2 : (-1 ?= 1) = Lt) by reflexivity. rewrite E2.
    repeat split; intros; try reflexivity; lra.
  - destruct (r ?= 1) eqn:E2;
      [apply Qeq_alt in E2|apply Qlt_alt in E2|apply Qgt_alt in E2];
      repeat split; intros; try reflexivity; lra.
Qed.

(** C8: with the clipping flag set, the reward [act_and_train] and
    [stop_episode_and_train] store at [t - 1] is the input clipped to
    [-1, 1]: it is what the dictionary holds when the call made no update or
    raised, and what the update read for its first step when one was made
    (it empties the dictionary afterwards).  The raw rewards -5, 1/2 and 5
    are stored as -1, 1/2 and 1. *)
Theorem reward_clipping (r : Q) (s : agent) :
  clip_reward cfg = true ->
  let c := np_clip r (-1) 1 in
  -1 <= c <= 1 /\
  (r < -1 -> c = -1) /\ (-1 <= r <= 1 -> c = r) /\ (1 < r -> c = 1) /\
  (exists s0, store_reward cfg r s = (Ok tt, s0) /\
              past_rewards s0 = <[(t s - 1)%Z := c]> (past_rewards s)) /\
  (forall st seed a s',
     act_and_train cfg st r seed s = (Ok (a, None), s') ->
     past_rewards s' !! (t s - 1)%Z = Some c) /\
  (forall st seed a u s',
     act_and_train cfg st r seed s = (Ok (a, Some u), s') ->
     exists e, u_steps u !! 0%nat = Some e /\
               e_index e = (t s - 1)%Z /\ e_reward e = c) /\
  (forall st done u s',
     stop_episode_and_train cfg st r done s = (Ok u, s') ->
     exists e, u_steps u !! 0%nat = Some e /\
               e_index e = (t s - 1)%Z /\ e_reward e = c) /\
  (forall st seed e s',
     act_and_train cfg st r seed s = (Raise e, s') ->
     past_rewards s' !! (t s - 1)%Z = Some c) /\
  (forall st done e s',
     stop_episode_and_train cfg st r done s = (Raise e, s') ->
     past_rewards s' !! (t s - 1)%Z = Some c) /\
  np_clip (-5) (-1) 1 = -1 /\
  np_clip (1 # 2) (-1) 1 = 1 # 2 /\
  np_clip 5 (-1) 1 = 1.
Proof.
  intros Hclip c.
  assert (Hstored : stored_reward r = c).
  { unfold stored_reward. rewrite Hclip. reflexivity. }
  assert (Hrw : past_rewards (with_reward r s) !! (t s - 1)%Z = Some c).
  { unfold with_reward. cbn. rewrite Hstored. apply lookup_insert_eq. }
  assert (Hfirst : forall sv u s1,
            update cfg sv (with_reward r s) = (Ok u, s1) ->
            exists e, u_steps u !! 0%nat = Some e /\
                      e_index e = (t s - 1)%Z /\ e_reward e = c).
  { intros sv u s1 Hupd.
    destruct (update_first_entry _ _ _ _ Hupd) as (e & He & Hi & Hr).
    cbn [with_reward set_past_rewards t] in Hi, Hr.
    fold (with_reward r s) in Hr. rewrite Hrw in Hr. injection Hr as Hr.
    exists e. auto. }
  assert (Hraise : forall sv e s1,
            update cfg sv (with_reward r s) = (Raise e, s1) ->
            past_rewards s1 !! (t s - 1)%Z = Some c).
  { intros sv e s1 Hupd.
    destruct (update_Raise_inv _ _ _ _ Hupd)
      as [(_ & -> & _)|(_ & _ & Hsame & _)]; [exact Hrw|].
    destruct (same_but_baseline_fields _ _ Hsame)
      as (_ & _ & _ & _ & _ & _ & -> & _). exact Hrw. }
  destruct (np_clip_cases r) as (Hlo & Hmid & Hhi).
  split.
  { destruct (Qlt_le_dec r (-1)) as [H1|H1]; [subst c; rewrite Hlo; lra|].
    destruct (Qlt_le_dec 1 r) as [H2|H2]; [subst c; rewrite Hhi; lra|].
    subst c. rewrite Hmid; lra. }
  split; [exact Hlo|]. split; [exact Hmid|]. split; [exact Hhi|].
  split.
  { exists (with_reward r s). split; [apply store_reward_eq|].
    unfold with_reward. cbn. rewrite Hstored. reflexivity. }
  split.
  { intros st seed a s' Hop. rewrite act_and_train_unfold in Hop.
    destruct (t s - t_start s =? t_max cfg)%Z.
    - destruct (update cfg _ (with_reward r s)) as [[u|e] s1]; discriminate.
    - injection Hop as _ <-.
      destruct (record_entry_fields (phi cfg st) seed (with_reward r s))
        as (_ & _ & _ & _ & _ & _ & _ & -> & _). exact Hrw. }
  split.
  { intros st seed a u s' Hop. rewrite act_and_train_unfold in Hop.
    destruct (t s - t_start s =? t_max cfg)%Z; [|discriminate].
    destruct (update cfg _ (with_reward r s)) as [[u1|e] s1] eqn:Hupd;
      [|discriminate].
    injection Hop as _ <- _. eapply Hfirst. exact Hupd. }
  split.
  { intros st done u s' Hop. rewrite stop_episode_and_train_unfold in Hop.
    destruct (update cfg _ (with_reward r s)) as [[u1|e] s1] eqn:Hupd;
      [|discriminate].
    injection Hop as <- _. eapply Hfirst. exact Hupd. }
  split.
  { intros st seed e s' Hop. rewrite act_and_train_unfold in Hop.
    destruct (t s - t_start s =? t_max cfg)%Z; [|discriminate].
    destruct (update cfg _ (with_reward r s)) as [[u1|e1] s1] eqn:Hupd;
      [discriminate|].
    injection Hop as _ <-. eapply Hraise. exact Hupd. }
  split.
  { intros st done e s' Hop. rewrite stop_episode_and_train_unfold in Hop.
    destruct (update cfg _ (with_reward r s)) as [[u1|e1] s1] eqn:Hupd;
      [discriminate|].
    injection Hop as _ <-. eapply Hraise. exact Hupd. }
  repeat split.
Qed.

(** C9: [act] leaves the counters, the five dictionaries and the baseline
    as they are (only the model may move: a recurrent one changes its state
    when evaluated), and returns the most probable action of the
    distribution in deterministic mode and a sample otherwise. *)
Theorem act_changes_no_agent_state (obs : State) (seed : Seed) (s : agent) :
  exists a s',
    act cfg obs seed s = (Ok a, s') /\
    t s' = t s /\
    t_start s' = t_start s /\
    past_action_log_prob s' = past_action_log_prob s /\
    past_action_entropy s' = past_action_entropy s /\
    past_states s' = past_states s /\
    past_rewards s' = past_rewards s /\
    past_values s' = past_values s /\
    average_reward s' = average_reward s /\
    a = (let pout := fst (fst (pi_and_v (model s) (phi cfg obs))) in
         if act_deterministically cfg
         then most_probable pout
         else sample pout seed).
Proof.
  rewrite act_eq. eexists _, _. split; [reflexivity|]. cbn. repeat split.
Qed.

End Control.

(** ** The reward stored below the window *)

Section Independence.

Context {Model State Obs Action Seed : Type}.
Context `{A3CModel Model Obs Action Seed}.
Variable cfg : config State Obs.

Local Abbreviation agent := (agent Model Obs).
Local Abbreviation op := (op (State := State) (Seed := Seed)).

(** Two agents that differ at most in the reward stored at key [k]. *)
Definition agree_off (k : Z) (s1 s2 : agent) : Prop :=
  model s1 = model s2 /\
  t s1 = t s2 /\
  t_start s1 = t_start s2 /\
  past_action_log_prob s1 = past_action_log_prob s2 /\
  past_action_entropy s1 = past_action_entropy s2 /\
  past_states s1 = past_states s2 /\
  past_values s1 = past_values s2 /\
  average_reward s1 = average_reward s2 /\
  forall i, i <> k -> past_rewards s1 !! i = past_rewards s2 !! i.

(** Two agents that differ at most in the reward stored just below the
    window, at [t_start - 1]. *)
Definition sim (s1 s2 : agent) : Prop := agree_off (t_start s1 - 1) s1 s2.

(** The agent without the reward at key [k]. *)
Definition mask (k : Z) (s : agent) : agent :=
  set_past_rewards (fun d => delete k d) s.

Lemma mask_eq_agree (k : Z) (s1 s2 : agent) :
  mask k s1 = mask k s2 <-> agree_off k s1 s2.
Proof.
  unfold mask, agree_off, set_past_rewards. destruct s1, s2.
  cbn [model t t_start past_action_log_prob past_action_entropy past_states
       past_rewards past_values average_reward].
  split.
  - intros [= -> -> -> -> -> -> Hrw -> ->]. repeat split.
    intros i Hi.
    rewrite <- (lookup_delete_ne past_rewards0 k i) by congruence.
    rewrite <- (lookup_delete_ne past_rewards1 k i) by congruence.
    rewrite Hrw. reflexivity.
  - intros (-> & -> & -> & -> & -> & -> & -> & -> & Hrw).
    assert (Hdel : delete k past_rewards0 = delete k past_rewards1).
    { apply map_eq. intros i. destruct (decide (i = k)) as [->|Hne].
      - rewrite !lookup_delete_eq. reflexivity.
      - rewrite !lookup_delete_ne by congruence. apply Hrw. exact Hne. }
    rewrite Hdel. reflexivity.
Qed.

(** A computation neither reads nor writes the reward at key [k]: it does
    on the masked agent what it does on the agent. *)
Definition commutes {A} (k : Z) (c : M agent A) : Prop :=
  forall s, c (mask k s) = (fst (c s), mask k (snd (c s))).

Lemma commutes_ret {A} (k : Z) (a : A) : commutes k (ret a).
Proof. intros s. reflexivity. Qed.

Lemma commutes_bind {A B} (k : Z) (c : M agent A) (f : A -> M agent B) :
  commutes k c -> (forall a, commutes k (f a)) -> commutes k (bind c f).
Proof.
  intros Hc Hf s. unfold bind. rewrite Hc.
  destruct (c s) as [[a|e] s1]; cbn [fst snd]; [apply Hf|reflexivity].
Qed.

Lemma commutes_getitem {V} (k i : Z) (d : agent -> gmap Z V) :
  (forall s, d (mask k s) !! i = d s !! i) -> commutes k (getitem d i).
Proof.
  intros Hd s. unfold getitem. rewrite Hd.
  destruct (d s !! i); reflexivity.
Qed.

Lemma commutes_gets {A} (k : Z) (f : agent -> A) :
  (forall s, f (mask k s) = f s) -> commutes k (gets f).
Proof. intros Hf s. unfold gets. rewrite Hf. reflexivity. Qed.

Lemma commutes_modify (k : Z) (g : agent -> agent) :
  (forall s, g (mask k s) = mask k (g s)) -> commutes k (modify g).
Proof. intros Hg s. unfold modify. rewrite Hg. reflexivity. Qed.

Lemma past_rewards_mask (k i : Z) (s : agent) :
  i <> k -> past_rewards (mask k s) !! i = past_rewards s !! i.
Proof. intros Hne. cbn. apply lookup_delete_ne. congruence. Qed.

Ltac commute :=
  repeat first
    [ apply commutes_ret
    | apply commutes_bind; [|intros ?]
    | apply commutes_getitem; intros ?;
      first [reflexivity | apply past_rewards_mask; assumption]
    | apply commutes_gets; intros ?; reflexivity
    | apply commutes_modify; intros ?; reflexivity
    | match goal with
      | |- commutes _ (if ?b then _ else _) => destruct b
      end ].

Lemma loop_body_mask (k i : Z) (l : locals) (s : agent) :
  i <> k ->
  loop_body cfg i l (mask k s)
  = (fst (loop_body cfg i l s), mask k (snd (loop_body cfg i l s))).
Proof.
  intros Hne. revert s. change (commutes k (loop_body cfg i l)).
  unfold loop_body. cbv zeta. commute.
Qed.

Lemma update_loop_mask (k : Z) (idxs : list Z) (l : locals) (s : agent) :
  Forall (fun i => i <> k) idxs ->
  update_loop cfg idxs l (mask k s)
  = (fst (update_loop cfg idxs l s), mask k (snd (update_loop cfg idxs l s))).
Proof.
  revert l s. induction idxs as [|i idxs IH]; intros l s Hall; [reflexivity|].
  inversion Hall as [|? ? Hi Hrest]; subst.
  cbn [update_loop]. unfold bind. rewrite loop_body_mask by exact Hi.
  destruct (loop_body cfg i l s) as [[l1|e] s1]; cbn [fst snd]; [|reflexivity].
  apply IH. exact Hrest.
Qed.

Lemma update_loop_agree (k : Z) (idxs : list Z) (l : locals) (s1 s2 : agent) :
  Forall (fun i => i <> k) idxs ->
  agree_off k s1 s2 ->
  fst (update_loop cfg idxs l s1) = fst (update_loop cfg idxs l s2) /\
  agree_off k (snd (update_loop cfg idxs l s1))
    (snd (update_loop cfg idxs l s2)).
Proof.
  intros Hall Hagree. apply mask_eq_agree in Hagree.
  pose proof (update_loop_mask k idxs l s1 Hall) as H1.
  pose proof (update_loop_mask k idxs l s2 Hall) as H2.
  rewrite Hagree, H2 in H1. split.
  - exact (f_equal fst (eq_sym H1)).
  - apply mask_eq_agree. exact (f_equal snd (eq_sym H1)).
Qed.

Lemma update_sim (sv : option Obs) (s1 s2 : agent) :
  sim s1 s2 ->
  fst (update cfg sv s1) = fst (update cfg sv s2) /\
  sim (snd (update cfg sv s1)) (snd (update cfg sv s2)).
Proof.
  intros Hsim.
  pose proof Hsim as (Hm & Ht & Hts & _).
  rewrite !update_unfold. rewrite <- Ht, <- Hts, <- Hm.
  destruct (t_start s1 <? t s1)%Z eqn:Hlt; [|split; [reflexivity|exact Hsim]].
  set (idxs := reversed_range (t_start s1) (t s1)).
  set (l0 := loop_start (bootstrap_value (model s1) sv)).
  destruct (update_loop_agree (t_start s1 - 1) idxs l0 s1 s2) as [Hf Hs].
  { apply Forall_forall. intros i Hi. apply reversed_range_elem in Hi. lia. }
  { exact Hsim. }
  pose proof (update_loop_frame cfg idxs l0 s1) as [Hfr _].
  destruct (update_loop cfg idxs l0 s1) as [[l1|e1] s1'],
    (update_loop cfg idxs l0 s2) as [[l2|e2] s2'];
    cbn [fst snd] in Hf, Hs, Hfr |- *; try discriminate.
  - injection Hf as <-. split; [reflexivity|].
    destruct Hs as (Hm' & Ht' & _ & _ & _ & _ & _ & Ha' & _).
    unfold sim, agree_off. cbn. rewrite Hm', Ht', Ha'. repeat split.
  - injection Hf as <-. split; [reflexivity|].
    unfold sim.
    destruct (same_but_baseline_fields _ _ Hfr) as (_ & _ & -> & _).
    exact Hs.
Qed.

Lemma with_reward_sim (r : Q) (s1 s2 : agent) :
  sim s1 s2 -> sim (with_reward cfg r s1) (with_reward cfg r s2).
Proof.
  intros (Hm & Ht & Hts & Hlp & Hen & Hst & Hv & Ha & Hrw).
  unfold sim, agree_off, with_reward. cbn. rewrite <- Ht.
  repeat split; try assumption.
  intros i Hi. destruct (decide ((t s1 - 1)%Z = i)) as [<-|Hne].
  - rewrite !lookup_insert_eq. reflexivity.
  - rewrite !lookup_insert_ne by exact Hne. apply Hrw. exact Hi.
Qed.

Lemma set_model_sim (f : Model -> Model) (s1 s2 : agent) :
  sim s1 s2 -> sim (set_model f s1) (set_model f s2).
Proof.
  intros (Hm & Ht & Hts & Hlp & Hen & Hst & Hv & Ha & Hrw).
  unfold sim, agree_off. cbn. rewrite Hm. repeat split; assumption.
Qed.

Lemma record_entry_sim (sv : Obs) (seed : Seed) (s1 s2 : agent) :
  sim s1 s2 ->
  fst (record_entry sv seed s1) = fst (record_entry sv seed s2) /\
  sim (snd (record_entry sv seed s1)) (snd (record_entry sv seed s2)).
Proof.
  intros (Hm & Ht & Hts & Hlp & Hen & Hst & Hv & Ha & Hrw).
  destruct (record_entry_fields sv seed s1)
    as (E0 & E1 & E2 & E3 & E4 & E5 & E6 & E7 & E8 & E9).
  destruct (record_entry_fields sv seed s2)
    as (F0 & F1 & F2 & F3 & F4 & F5 & F6 & F7 & F8 & F9).
  split; [rewrite E0, F0, Hm; reflexivity|].
  unfold sim, agree_off.
  rewrite E1, E2, E3, E4, E5, E6, E7, E8, E9, F1, F2, F3, F4, F5, F6, F7, F8, F9.
  rewrite Hm, Ht, Hts, Hlp, Hen, Hst, Hv, Ha. repeat split.
  rewrite <- Hts. exact Hrw.
Qed.

Lemma act_and_train_sim_gen (st : State) (r r' : Q) (seed : Seed)
    (s1 s2 : agent) :
  t s1 = t s2 ->
  t_start s1 = t_start s2 ->
  sim (with_reward cfg r s1) (with_reward cfg r' s2) ->
  fst (act_and_train cfg st r seed s1) = fst (act_and_train cfg st r' seed s2) /\
  sim (snd (act_and_train cfg st r seed s1))
    (snd (act_and_train cfg st r' seed s2)).
Proof.
  intros Ht Hts Hw.
  rewrite !act_and_train_unfold. rewrite <- Ht, <- Hts.
  destruct (t s1 - t_start s1 =? t_max cfg)%Z.
  - destruct (update_sim (Some (phi cfg st)) _ _ Hw) as [Hf Hs].
    destruct (update cfg _ (with_reward cfg r s1)) as [[u1|e1] s1'],
      (update cfg _ (with_reward cfg r' s2)) as [[u2|e2] s2'];
      cbn [fst snd] in Hf, Hs |- *; try discriminate.
    + injection Hf as <-.
      destruct (record_entry_sim (phi cfg st) seed _ _ Hs) as [-> Hr].
      split; [reflexivity|exact Hr].
    + injection Hf as <-. split; [reflexivity|exact Hs].
  - destruct (record_entry_sim (phi cfg st) seed _ _ Hw) as [-> Hr].
    split; [reflexivity|exact Hr].
Qed.

Lemma act_and_train_sim (st : State) (r : Q) (seed : Seed) (s1 s2 : agent) :
  sim s1 s2 ->
  fst (act_and_train cfg st r seed s1) = fst (act_and_train cfg st r seed s2) /\
  sim (snd (act_and_train cfg st r seed s1))
    (snd (act_and_train cfg st r seed s2)).
Proof.
  intros Hsim. pose proof Hsim as (_ & Ht & Hts & _).
  apply act_and_train_sim_gen; [exact Ht|exact Hts|].
  apply with_reward_sim. exact Hsim.
Qed.

Lemma stop_episode_and_train_sim (st : State) (r : Q) (done : bool)
    (s1 s2 : agent) :
  sim s1 s2 ->
  fst (stop_episode_and_train cfg st r done s1)
  = fst (stop_episode_and_train cfg st r done s2) /\
  sim (snd (stop_episode_and_train cfg st r done s1))
    (snd (stop_episode_and_train cfg st r done s2)).
Proof.
  intros Hsim. rewrite !stop_episode_and_train_unfold.
  pose proof (with_reward_sim r s1 s2 Hsim) as Hw.
  destruct (update_sim (if done then None else Some (phi cfg st)) _ _ Hw)
    as [Hf Hs].
  destruct (update cfg _ (with_reward cfg r s1)) as [[u1|e1] s1'],
    (update cfg _ (with_reward cfg r s2)) as [[u2|e2] s2'];
    cbn [fst snd] in Hf, Hs |- *; try discriminate.
  - injection Hf as <-. split; [reflexivity|apply set_model_sim; exact Hs].
  - injection Hf as <-. split; [reflexivity|exact Hs].
Qed.

Lemma exec_sim (o : op) (s1 s2 : agent) :
  sim s1 s2 ->
  fst (exec cfg o s1) = fst (exec cfg o s2) /\
  sim (snd (exec cfg o s1)) (snd (exec cfg o s2)).
Proof.
  intros Hsim. destruct o as [st r seed|obs seed|st r done|]; cbn [exec];
    unfold bind.
  - destruct (act_and_train_sim st r seed s1 s2 Hsim) as [Hf Hs].
    destruct (act_and_train cfg st r seed s1) as [[x1|e1] s1'],
      (act_and_train cfg st r seed s2) as [[x2|e2] s2'];
      cbn [fst snd] in Hf, Hs |- *; try discriminate;
      injection Hf as <-; split; [reflexivity|exact Hs|reflexivity|exact Hs].
  - rewrite !act_eq. pose proof Hsim as (Hm & _). rewrite <- Hm.
    split; [reflexivity|apply set_model_sim; exact Hsim].
  - destruct (stop_episode_and_train_sim st r done s1 s2 Hsim) as [Hf Hs].
    destruct (stop_episode_and_train cfg st r done s1) as [[x1|e1] s1'],
      (stop_episode_and_train cfg st r done s2) as [[x2|e2] s2'];
      cbn [fst snd] in Hf, Hs |- *; try discriminate;
      injection Hf as <-; split; [reflexivity|exact Hs|reflexivity|exact Hs].
  - split; [reflexivity|apply set_model_sim; exact Hsim].
Qed.

Lemma run_sim (ops : list op) (s1 s2 : agent) :
  sim s1 s2 ->
  fst (run cfg ops s1) = fst (run cfg ops s2) /\
  sim (snd (run cfg ops s1)) (snd (run cfg ops s2)).
Proof.
  revert s1 s2. induction ops as [|o ops IH]; intros s1 s2 Hsim.
  - split; [reflexivity|exact Hsim].
  - cbn [run]. destruct (exec_sim o s1 s2 Hsim) as [Hf Hs].
    destruct (exec cfg o s1) as [r1 s1'], (exec cfg o s2) as [r2 s2'].
    cbn [fst snd] in Hf, Hs. subst r2.
    destruct (IH s1' s2' Hs) as [Hf' Hs'].
    destruct (run cfg ops s1') as [rs1 s1''], (run cfg ops s2') as [rs2 s2''].
    cbn [fst snd] in Hf', Hs' |- *. subst rs2.
    split; [reflexivity|exact Hs'].
Qed.

(** On an empty window the reward of the call goes below the window. *)
Lemma with_reward_empty_sim (r r' : Q) (s : agent) :
  t s = t_start s -> sim (with_reward cfg r s) (with_reward cfg r' s).
Proof.
  intros Heq. unfold sim, agree_off, with_reward. cbn. repeat split.
  intros i Hi. rewrite !lookup_insert_ne by lia. reflexivity.
Qed.

Lemma act_and_train_empty (st : State) (r : Q) (seed : Seed) (s : agent) :
  t s = t_start s ->
  let s1 := snd (act_and_train cfg st r seed s) in
  past_rewards s1 !! (t s - 1)%Z = Some (stored_reward cfg r) /\
  t_start s1 = t_start s.
Proof.
  intros Heq. rewrite act_and_train_unfold.
  destruct (t s - t_start s =? t_max cfg)%Z.
  - rewrite update_unfold. cbn [with_reward set_past_rewards t t_start].
    replace (t_start s <? t s)%Z with false by lia. cbn.
    split; [apply lookup_insert_eq|reflexivity].
  - cbn [snd].
    destruct (record_entry_fields (phi cfg st) seed (with_reward cfg r s))
      as (_ & _ & _ & -> & _ & _ & _ & -> & _).
    cbn. split; [apply lookup_insert_eq|reflexivity].
Qed.

Lemma stop_episode_and_train_empties (st : State) (r : Q) (done : bool)
    (s : agent) :
  keys_ok s ->
  t (snd (stop_episode_and_train cfg st r done s))
  = t_start (snd (stop_episode_and_train cfg st r done s)).
Proof.
  intros Hk. pose proof Hk as (Hle & _).
  pose proof (with_reward_keys_full cfg r s Hk) as Hfull.
  rewrite stop_episode_and_train_unfold.
  destruct (update cfg _ (with_reward cfg r s)) as [[u|e] s1] eqn:Hupd.
  - destruct (update_Ok_keys_full _ _ _ _ _ Hupd) as (_ & Ht1 & Hts1).
    cbn. rewrite Ht1, Hts1. reflexivity.
  - cbn [snd].
    destruct (update_Raise_inv _ _ _ _ _ Hupd)
      as [(_ & -> & Hge)|(_ & Hlt & _ & Hnot)].
    + cbn in Hge |- *. lia.
    + exfalso. apply Hnot. apply keys_full_ready; assumption.
Qed.

(** C10: when the window is empty ([t = t_start]: after the construction,
    and after every [stop_episode_and_train] on a reachable state) the
    reward argument of [act_and_train] is stored at [t - 1 = t_start - 1],
    below the window, and nothing reads it afterwards: two runs that differ
    in that reward only return the same action, and whatever calls follow
    observe the same results (the same exceptions, actions and updates with
    their returns, advantages, baselines and losses) and end in agents with
    the same counters, baseline, model and dictionaries, but for the reward
    below the window. *)
Theorem first_reward_never_read (st : State) (r r' : Q) (seed : Seed)
    (ops : list op) (s : agent) :
  t s = t_start s ->
  let s1 := snd (act_and_train cfg st r seed s) in
  let s1' := snd (act_and_train cfg st r' seed s) in
  let f := snd (run cfg ops s1) in
  let f' := snd (run cfg ops s1') in
  past_rewards s1 !! (t s - 1)%Z = Some (stored_reward cfg r) /\
  (t s - 1 = t_start s1 - 1)%Z /\
  fst (act_and_train cfg st r seed s) = fst (act_and_train cfg st r' seed s) /\
  fst (run cfg ops s1) = fst (run cfg ops s1') /\
  (model f = model f' /\ t f = t f' /\ t_start f = t_start f' /\
   past_action_log_prob f = past_action_log_prob f' /\
   past_action_entropy f = past_action_entropy f' /\
   past_states f = past_states f' /\
   past_values f = past_values f' /\
   average_reward f = average_reward f' /\
   forall i, i <> (t_start f - 1)%Z ->
     past_rewards f !! i = past_rewards f' !! i) /\
  (forall m : Model, t (init m : agent) = t_start (init m : agent)) /\
  (forall s0 st0 r0 done,
     reachable cfg s0 ->
     t (snd (stop_episode_and_train cfg st0 r0 done s0))
     = t_start (snd (stop_episode_and_train cfg st0 r0 done s0))).
Proof.
  intros Heq s1 s1' f f'.
  destruct (act_and_train_empty st r seed s Heq) as [Hstored Hts].
  destruct (act_and_train_sim_gen st r r' seed s s eq_refl eq_refl
              (with_reward_empty_sim r r' s Heq)) as [Hact Hsim].
  destruct (run_sim ops _ _ Hsim) as [Hrun Hfin].
  split; [exact Hstored|]. split; [fold s1 in Hts; lia|].
  split; [exact Hact|]. split; [exact Hrun|]. split; [exact Hfin|].
  split; [reflexivity|].
  intros s0 st0 r0 done Hreach.
  apply stop_episode_and_train_empties.
  apply (reachable_inv cfg s0 Hreach).
Qed.

End Independence.

(** The constant model's agent after [n] calls of [act_and_train] with
    reward 1. *)
Definition stepped (n : nat) : agent unit Z :=
  Nat.iter n (fun s => snd (exec ConstModel.cfg (ActAndTrain 0%Z 1 tt) s))
    ConstModel.fresh.

(** The configuration of the constant model with the horizon [h]. *)
Definition cfg_horizon (h : Z) : config Z Z :=
  {| t_max := h; gamma := 9 # 10; beta := 1 # 100; process_idx := 0;
     clip_reward := true; phi := fun x => x;
     pi_loss_coef := 1; v_loss_coef := 1 # 2;
     keep_loss_scale_same := false; normalize_grad_by_t_max := false;
     use_average_reward := false; average_reward_tau := 1 # 100;
     act_deterministically := false |}.

(** After three steps the window [0, 3) is as long as the horizon: the
    fourth [act_and_train] call makes the update, on that window, and
    records its own step in the new window [3, 4). *)
Lemma act_and_train_update_at_horizon_witness :
  (0 < t_max ConstModel.cfg)%Z /\
  reachable ConstModel.cfg (stepped 3) /\
  (t (stepped 3) - t_start (stepped 3) = t_max ConstModel.cfg)%Z /\
  exists a u s',
    act_and_train ConstModel.cfg 0%Z 1 tt (stepped 3) = (Ok (a, Some u), s') /\
    e_index <$> u_steps u = [2%Z; 1%Z; 0%Z] /\
    t_start s' = 3%Z /\
    t s' = 4%Z.
Proof.
  assert (Hreach : reachable ConstModel.cfg (stepped 3)).
  { unfold stepped. cbn [Nat.iter nat_rect].
    repeat apply reachable_exec. apply reachable_init. }
  split; [reflexivity|]. split; [exact Hreach|]. split; [reflexivity|].
  destruct (act_and_train_update_at_horizon ConstModel.cfg 0%Z 1 tt
              (stepped 3) eq_refl Hreach)
    as (_ & (a & upd & s' & Hact & Hiff & Hsome & _ & Ht & _) & _).
  destruct (proj2 Hiff eq_refl) as [u ->].
  destruct (Hsome u eq_refl) as (s1 & _ & _ & _ & Hidx & Hts).
  exists a, u, s'. split; [exact Hact|].
  split; [exact Hidx|]. split; [exact Hts|exact Ht].
Defined.

(** C5 as the specification states it fails for a horizon that is not
    positive, which [__init__] accepts.  With [t_max = 0] the window of the
    fresh agent is as long as the horizon and [act_and_train] makes no
    update: it raises [AssertionError].  With [t_max = -1] the fresh agent,
    a reachable state, has a window longer than the horizon. *)
Lemma nonpositive_horizon_counterexample :
  (reachable (cfg_horizon 0) ConstModel.fresh /\
   (t ConstModel.fresh - t_start ConstModel.fresh
    = t_max (cfg_horizon 0))%Z /\
   act_and_train (cfg_horizon 0) 0%Z 1 tt ConstModel.fresh
   = (Raise AssertionError, with_reward (cfg_horizon 0) 1 ConstModel.fresh)) /\
  (reachable (cfg_horizon (-1)) ConstModel.fresh /\
   ~ (t ConstModel.fresh - t_start ConstModel.fresh
      <= t_max (cfg_horizon (-1)))%Z).
Proof.
  split.
  - split; [apply reachable_init|]. split; reflexivity.
  - split; [apply reachable_init|]. vm_compute. intros Hle. apply Hle.
    reflexivity.
Qed.



(** C7 as the specification states it fails: the failed call on a fresh
    agent leaves the reward it was given in [past_rewards], which was
    empty. *)
Lemma failed_stop_mutates_rewards_counterexample :
  exists s',
    stop_episode_and_train ConstModel.cfg 0%Z 5 true ConstModel.fresh
    = (Raise AssertionError, s') /\
    past_rewards ConstModel.fresh !! (-1)%Z = None /\
    past_rewards s' !! (-1)%Z = Some 1 /\
    s' <> ConstModel.fresh.
Proof.
  eexists. split; [vm_compute; reflexivity|].
  split; [reflexivity|]. split; [reflexivity|].
  intros Heq. apply (f_equal (fun a => past_rewards a !! (-1)%Z)) in Heq.
  vm_compute in Heq. discriminate Heq.
Qed.

Lemma failed_update_leaves_reward_witness :
  exists s',
    stop_episode_and_train ConstModel.cfg 0%Z 5 true ConstModel.fresh
    = (Raise AssertionError, s') /\
    t s' = t ConstModel.fresh /\
    past_rewards s'
    = <[(-1)%Z := stored_reward ConstModel.cfg 5]>
        (past_rewards ConstModel.fresh).
Proof.
  exists (with_reward ConstModel.cfg 5 ConstModel.fresh).
  assert (Hop : stop_episode_and_train ConstModel.cfg 0%Z 5 true
                  ConstModel.fresh
                = (Raise AssertionError,
                   with_reward ConstModel.cfg 5 ConstModel.fresh))
    by reflexivity.
  split; [exact Hop|].
  destruct (failed_update_leaves_reward ConstModel.cfg 5 ConstModel.fresh _
              (or_introl (ex_intro _ 0%Z (ex_intro _ true Hop))))
    as (_ & _ & Ht & _ & _ & _ & _ & _ & _ & Hrw).
  split; [exact Ht|exact Hrw].
Defined.

Lemma reward_clipping_witness :
  clip_reward ConstModel.cfg = true /\
  -1 <= np_clip 5 (-1) 1 <= 1.
Proof.
  split; [reflexivity|].
  destruct (reward_clipping ConstModel.cfg 5 ConstModel.fresh eq_refl)
    as (Hbounds & _).
  exact Hbounds.
Defined.

Lemma first_reward_never_read_witness :
  t ConstModel.fresh = t_start ConstModel.fresh /\
  fst (run ConstModel.cfg
         [ActAndTrain 0%Z 1 tt; StopEpisodeAndTrain 0%Z 1 true]
         (snd (act_and_train ConstModel.cfg 0%Z 5 tt ConstModel.fresh)))
  = fst (run ConstModel.cfg
           [ActAndTrain 0%Z 1 tt; StopEpisodeAndTrain 0%Z 1 true]
           (snd (act_and_train ConstModel.cfg 0%Z (-5) tt ConstModel.fresh))).
Proof.
  split; [reflexivity|].
  destruct (first_reward_never_read ConstModel.cfg 0%Z 5 (-5) tt
              [ActAndTrain 0%Z 1 tt; StopEpisodeAndTrain 0%Z 1 true]
              ConstModel.fresh eq_refl)
    as (_ & _ & _ & Hrun & _).
  exact Hrun.
Defined.

(** * Further properties of the agent *)

(** ** The outcomes of [update] *)

Section UpdateOutcomes.

Context {Model State Obs Action Seed : Type}.
Context `{A3CModel Model Obs Action Seed}.
Variable cfg : config State Obs.

Local Abbreviation agent := (agent Model Obs).

(** A computation leaves the agent as it found it, whether it returns or
    raises. *)
Definition keeps_agent {A} (c : M agent A) : Prop :=
  forall s, snd (c s) = s.

Lemma keeps_ret {A} (a : A) : keeps_agent (ret a).
Proof. intros s. reflexivity. Qed.

Lemma keeps_bind {A B} (c : M agent A) (f : A -> M agent B) :
  keeps_agent c -> (forall a, keeps_agent (f a)) -> keeps_agent (bind c f).
Proof.
  intros Hc Hf s. unfold bind. specialize (Hc s).
  destruct (c s) as [[a|e] s1]; cbn [snd] in Hc |- *; subst s1;
    [apply Hf|reflexivity].
Qed.

Lemma keeps_getitem {V} (d : agent -> gmap Z V) (i : Z) :
  keeps_agent (getitem d i).
Proof. intros s. unfold getitem. destruct (d s !! i); reflexivity. Qed.

Lemma keeps_gets {A} (f : agent -> A) : keeps_agent (gets f).
Proof. intros s. reflexivity. Qed.

Ltac keep :=
  repeat first
    [ apply keeps_ret
    | apply keeps_bind; [|intros ?]
    | apply keeps_getitem
    | apply keeps_gets
    | match goal with
      | |- keeps_agent (if ?b then _ else _) => destruct b
      end ].

(** Without the average-reward mode the loop writes nothing. *)
Lemma loop_body_keeps (i : Z) (l : locals) :
  use_average_reward cfg = false -> keeps_agent (loop_body cfg i l).
Proof.
  intros Havg. unfold loop_body. cbv zeta. rewrite Havg. cbv iota. keep.
Qed.

Lemma update_loop_keeps (idxs : list Z) (l : locals) :
  use_average_reward cfg = false -> keeps_agent (update_loop cfg idxs l).
Proof.
  intros Havg. revert l. induction idxs as [|i idxs IH]; intros l.
  - apply keeps_ret.
  - cbn [update_loop]. apply keeps_bind; [apply loop_body_keeps; exact Havg|].
    intros l'. apply IH.
Qed.

(** X1: what [update] does is decided by the window.  On an empty window
    ([t <= t_start]) it raises [AssertionError] and leaves the agent as it
    is.  On a window all of whose steps have their entries it returns.  On
    a non-empty window with a step that lacks an entry it raises [KeyError]:
    the counters, the model and the five dictionaries are as before, and
    without the average-reward mode so is the whole agent. *)
Theorem update_outcomes (sv : option Obs) (s : agent) :
  ((t s <= t_start s)%Z /\
   update cfg sv s = (Raise AssertionError, s)) \/
  (window_ready cfg s /\
   exists u s', update cfg sv s = (Ok u, s')) \/
  ((t_start s < t s)%Z /\
   (exists i, (t_start s <= i < t s)%Z /\ ~ has_entry cfg s i) /\
   exists s',
     update cfg sv s = (Raise KeyError, s') /\
     same_but_baseline s s' /\
     (use_average_reward cfg = false -> s' = s)).
Proof.
  destruct (update cfg sv s) as [[u|e] s'] eqn:Hupd.
  - right. left. split; [|eauto]. apply (update_Ok_iff cfg sv s). eauto.
  - destruct (update_Raise_inv cfg sv s s' e Hupd)
      as [(-> & -> & Hle)|(-> & Hlt & Hsame & Hnot)].
    + left. split; [exact Hle|reflexivity].
    + right. right. split; [exact Hlt|]. split.
      * unfold window_ready in Hnot.
        rewrite window_ready_Forall in Hnot.
        assert (Hex : Exists (fun i => ~ has_entry cfg s i)
                        (reversed_range (t_start s) (t s))).
        { apply not_Forall_Exists; [|tauto].
          intros i. unfold has_entry. apply _. }
        apply Exists_exists in Hex as (i & Hi & Hni).
        exists i. split; [apply reversed_range_elem; exact Hi|exact Hni].
      * exists s'. split; [reflexivity|]. split; [exact Hsame|].
        intros Havg. rewrite update_unfold in Hupd.
        replace (t_start s <? t s)%Z with true in Hupd by lia.
        pose proof (update_loop_keeps (reversed_range (t_start s) (t s))
                      (loop_start (bootstrap_value (model s) sv)) Havg s)
          as Hk.
        destruct (update_loop _ _ _ _) as [[l|e1] s1]; [discriminate|].
        cbn [snd] in Hk. injection Hupd as _ <-. exact Hk.
Qed.

End UpdateOutcomes.

(** ** The baseline and the losses *)

Section BaselineAndLosses.

Context {Model State Obs Action Seed : Type}.
Context `{A3CModel Model Obs Action Seed}.
Variable cfg : config State Obs.

Local Abbreviation agent := (agent Model Obs).
Local Abbreviation op := (op (State := State) (Seed := Seed)).

Lemma reversed_range_head (a b : Z) :
  (a < b)%Z -> reversed_range a b = (b - 1)%Z :: reversed_range a (b - 1).
Proof.
  intros Hab.
  replace b with (a + Z.of_nat (S (Z.to_nat (b - 1 - a))))%Z at 1 by lia.
  rewrite reversed_range_S. f_equal; [lia|f_equal; lia].
Qed.

(** X2: with the average-reward mode the baseline is written before the
    log-probability of the step is read.  When the last step of a non-empty
    window has its reward, its value (and its state, if it is logged) but no
    log-probability, [update] raises [KeyError] and leaves the baseline
    moved by [tau * advantage] of that step; nothing else has changed. *)
Theorem update_keyerror_after_baseline_write (sv : option Obs) (s : agent)
    (r v : Q) :
  use_average_reward cfg = true ->
  (t_start s < t s)%Z ->
  past_rewards s !! (t s - 1)%Z = Some r ->
  past_values s !! (t s - 1)%Z = Some v ->
  (process_idx cfg = 0%Z -> is_Some (past_states s !! (t s - 1)%Z)) ->
  past_action_log_prob s !! (t s - 1)%Z = None ->
  update cfg sv s
  = (Raise KeyError,
     set_average_reward
       (fun a => a + average_reward_tau cfg
                     * (bootstrap_value (model s) sv * gamma cfg + r
                        - average_reward s - v)) s).
Proof.
  intros Havg Hlt Hr Hv Hst Hlp.
  rewrite update_unfold. replace (t_start s <? t s)%Z with true by lia.
  rewrite reversed_range_head by exact Hlt.
  cbn [update_loop]. unfold bind at 1.
  assert (Hbody : loop_body cfg (t s - 1)
                    (loop_start (bootstrap_value (model s) sv)) s
                  = (Raise KeyError,
                     set_average_reward
                       (fun a => a + average_reward_tau cfg
                          * (bootstrap_value (model s) sv * gamma cfg + r
                             - average_reward s - v)) s)).
  { unfold loop_body, bind, getitem, gets, modify, ret.
    rewrite Hr, Hv, Havg. cbn [R loop_start].
    destruct (process_idx cfg =? 0)%Z eqn:Hp.
    - destruct Hst as [o Ho]; [lia|]. rewrite Ho.
      cbn [set_average_reward past_action_log_prob]. rewrite Hlp.
      reflexivity.
    - cbn [set_average_reward past_action_log_prob]. rewrite Hlp.
      reflexivity. }
  rewrite Hbody. reflexivity.
Qed.

(** Without the average-reward mode [update] leaves the baseline alone. *)
Lemma update_baseline_fixed (sv : option Obs) (s : agent) :
  use_average_reward cfg = false ->
  average_reward (snd (update cfg sv s)) = average_reward s.
Proof.
  intros Havg. rewrite update_unfold.
  destruct (t_start s <? t s)%Z; [|reflexivity].
  pose proof (update_loop_keeps cfg (reversed_range (t_start s) (t s))
                (loop_start (bootstrap_value (model s) sv)) Havg s) as Hk.
  destruct (update_loop _ _ _ _) as [[l|e] s1]; cbn [snd] in Hk |- *;
    subst s1; reflexivity.
Qed.

(** The agent a call leaves is the one the operation leaves. *)
Lemma exec_snd (o : op) (s : agent) :
  snd (exec cfg o s)
  = match o with
    | ActAndTrain st r seed => snd (act_and_train cfg st r seed s)
    | Act obs seed => snd (act cfg obs seed s)
    | StopEpisodeAndTrain st r done =>
        snd (stop_episode_and_train cfg st r done s)
    | StopEpisode => snd (stop_episode s)
    end.
Proof.
  destruct o as [st r seed|obs seed|st r done|]; cbn [exec];
    unfold bind, ret.
  - destruct (act_and_train cfg st r seed s) as [[x|e] s1]; reflexivity.
  - destruct (act cfg obs seed s) as [[x|e] s1]; reflexivity.
  - destruct (stop_episode_and_train cfg st r done s) as [[x|e] s1];
      reflexivity.
  - reflexivity.
Qed.

Lemma exec_baseline_fixed (o : op) (s : agent) :
  use_average_reward cfg = false ->
  average_reward (snd (exec cfg o s)) = average_reward s.
Proof.
  intros Havg. rewrite exec_snd.
  destruct o as [st r seed|obs seed|st r done|].
  - rewrite act_and_train_unfold.
    destruct (t s - t_start s =? t_max cfg)%Z.
    + pose proof (update_baseline_fixed (Some (phi cfg st))
                    (with_reward cfg r s) Havg) as Hu.
      destruct (update cfg _ (with_reward cfg r s)) as [[u|e] s1];
        cbn [snd] in Hu |- *; [|exact Hu].
      destruct (record_entry_fields (phi cfg st) seed s1)
        as (_ & _ & _ & _ & _ & _ & _ & _ & _ & ->). exact Hu.
    + cbn [snd].
      destruct (record_entry_fields (phi cfg st) seed (with_reward cfg r s))
        as (_ & _ & _ & _ & _ & _ & _ & _ & _ & ->). reflexivity.
  - rewrite act_eq. reflexivity.
  - rewrite stop_episode_and_train_unfold.
    pose proof (update_baseline_fixed (if done then None else Some (phi cfg st))
                  (with_reward cfg r s) Havg) as Hu.
    destruct (update cfg _ (with_reward cfg r s)) as [[u|e] s1];
      cbn [snd] in Hu |- *; exact Hu.
  - reflexivity.
Qed.

(** X3: with the average-reward mode disabled no sequence of calls moves
    the baseline, whether the calls return or raise; from a fresh agent it
    stays 0. *)
Theorem baseline_fixed_without_average_mode (ops : list op) (s : agent) :
  use_average_reward cfg = false ->
  average_reward (snd (run cfg ops s)) = average_reward s /\
  (forall m, average_reward (snd (run cfg ops (init m))) = 0).
Proof.
  intros Havg.
  assert (Hrun : forall ops s,
             average_reward (snd (run cfg ops s)) = average_reward s).
  { clear ops s. induction ops as [|o ops IH]; intros s; [reflexivity|].
    cbn [run]. pose proof (exec_baseline_fixed o s Havg) as Ho.
    destruct (exec cfg o s) as [r1 s1]. cbn [snd] in Ho.
    specialize (IH s1). destruct (run cfg ops s1) as [rs s2].
    cbn [snd] in IH |- *. congruence. }
  split; [apply Hrun|]. intros m. rewrite Hrun. reflexivity.
Qed.

(** The terms one step adds to the two losses: [log_prob * advantage +
    beta * entropy] is subtracted from the policy loss, [(v - R)^2 / 2] is
    added to the value loss. *)
Definition step_policy_loss (lpm enm : gmap Z Q) (e : step_entry) : Q :=
  default 0 (lpm !! e_index e) * e_advantage e
  + beta cfg * default 0 (enm !! e_index e).

Definition step_value_loss (e : step_entry) : Q :=
  (e_value e - e_R e) ^ 2 / 2.

Lemma update_loop_losses (idxs : list Z) (l l' : locals) (s s' : agent) :
  update_loop cfg idxs l s = (Ok l', s') ->
  exists es,
    steps l' = steps l ++ es /\
    pi_loss l'
    == pi_loss l
       - sumQ (step_policy_loss (past_action_log_prob s)
                 (past_action_entropy s) <$> es) /\
    v_loss l' == v_loss l + sumQ (step_value_loss <$> es).
Proof.
  revert l s. induction idxs as [|i idxs IH]; intros l s Hloop.
  - injection Hloop as <- <-. exists []. rewrite app_nil_r.
    split; [reflexivity|]. cbn. split; ring.
  - pose proof (update_loop_Ok_inv cfg _ _ _ _ _ Hloop) as Hall.
    inversion Hall as [|? ? Hi _]; subst.
    destruct Hi as ([r Hr] & [v Hv] & [lp Hlp] & [en Hen] & Hst).
    cbn [update_loop] in Hloop. unfold bind in Hloop.
    rewrite (loop_body_Ok cfg i l s r v lp en Hr Hv Hlp Hen Hst) in Hloop.
    destruct (IH _ _ Hloop) as (es & Hsteps & Hpi & Hvl).
    destruct (same_but_baseline_fields _ _
                (next_state_same cfg s
                   (next_R cfg (R l) (average_reward s) r - v)))
      as (_ & _ & _ & Hlpm & Henm & _).
    rewrite Hlpm, Henm in Hpi.
    exists (next_entry cfg i (R l) (average_reward s) r v :: es).
    split; [|split].
    + rewrite Hsteps. cbn [steps next_locals]. rewrite <- app_assoc.
      reflexivity.
    + rewrite Hpi. cbn [pi_loss next_locals fmap list_fmap].
      change (sumQ (?x :: ?xs)) with (x + sumQ xs).
      unfold step_policy_loss at 2.
      cbn [e_index e_advantage next_entry]. rewrite Hlp, Hen.
      cbn [default from_option]. unfold id. ring.
    + rewrite Hvl. cbn [v_loss next_locals fmap list_fmap].
      change (sumQ (?x :: ?xs)) with (x + sumQ xs).
      unfold step_value_loss at 2. cbn [e_value e_R next_entry]. ring.
Qed.

(** X4: the losses of a returning [update].  It processes every step of
    the window once, from [t - 1] down to [t_start] (there are
    [t - t_start] iterations and the step [i] is the iteration number
    [t - 1 - i], with the reward and the value the dictionaries hold for
    it); the policy loss is
    minus the sum over these steps of [log_prob * advantage + beta *
    entropy], the value loss the sum of [(v - R)^2 / 2], each scaled by its
    coefficient and by the two length factors; the total loss is their
    sum. *)
Theorem update_losses (sv : option Obs) (s s' : agent) (u : update_record) :
  update cfg sv s = (Ok u, s') ->
  let n := (t s - t_start s)%Z in
  e_index <$> u_steps u = reversed_range (t_start s) (t s) /\
  length (u_steps u) = Z.to_nat n /\
  (forall i, (t_start s <= i < t s)%Z ->
     exists e, u_steps u !! Z.to_nat (t s - 1 - i) = Some e /\
               e_index e = i /\
               past_rewards s !! i = Some (e_reward e) /\
               past_values s !! i = Some (e_value e) /\
               e_advantage e = e_R e - e_value e) /\
  u_pi_loss u
  == - sumQ (step_policy_loss (past_action_log_prob s)
               (past_action_entropy s) <$> u_steps u)
     * pi_loss_coef cfg * keep_factor cfg n * normalize_factor cfg n /\
  u_v_loss u
  == sumQ (step_value_loss <$> u_steps u)
     * v_loss_coef cfg * keep_factor cfg n * normalize_factor cfg n /\
  u_total_loss u = u_pi_loss u + u_v_loss u.
Proof.
  intros Hupd n.
  destruct (update_Ok_inv cfg sv s s' u Hupd)
    as (l & s1 & _ & Hloop & _ & Hu & _ & Hch).
  destruct (update_loop_losses _ _ _ _ _ Hloop) as (es & Hsteps & Hpi & Hvl).
  cbn [steps pi_loss v_loss loop_start app] in Hsteps, Hpi, Hvl.
  destruct (make_record_steps cfg n (bootstrap_value (model s) sv) l)
    as (Hus & _ & Hpv).
  fold n in Hu. rewrite <- Hu in Hus, Hpv.
  rewrite loss_transforms_spec in Hpv.
  destruct (spec_loss_transforms_factors cfg n (pi_loss l) (v_loss l))
    as [Hfp Hfv].
  rewrite <- Hpv in Hfp, Hfv. cbn [fst snd] in Hfp, Hfv.
  pose proof (chain_indices _ _ _ _ _ _ _ _ _ Hch) as Hidx.
  destruct (steps_cover_window _ _ _ Hidx) as [Hlen Hcov].
  split; [exact Hidx|]. split; [exact Hlen|]. split.
  { intros i Hi. destruct (Hcov i Hi) as (e & He & Hei).
    destruct (chain_recurrence cfg _ _ _ _ _ _ _ _ Hch _ e He)
      as (Hr & Hv & _ & Hadv).
    rewrite Hei in Hr, Hv. exists e. auto. }
  rewrite Hus, Hsteps.
  split; [rewrite Hfp, Hpi; ring|]. split; [rewrite Hfv, Hvl; ring|].
  rewrite Hu. unfold make_record.
  destruct (loss_transforms cfg n (pi_loss l) (v_loss l)). reflexivity.
Qed.

(** X5: what a returning [stop_episode_and_train] bootstrapped from and
    left.  With [done] the bootstrap value is 0, otherwise it is the value
    estimate of the model at the state given; the window is emptied at the
    unchanged [t]; the model is the synchronised one with its recurrent
    state reset.  With [done] and no average-reward mode the return of the
    last step is exactly the reward of the call as stored. *)
Theorem stop_episode_and_train_bootstrap (st : State) (r : Q) (done : bool)
    (s s' : agent) (u : update_record) :
  stop_episode_and_train cfg st r done s = (Ok u, s') ->
  u_bootstrap u
  = (if done then 0 else snd (fst (pi_and_v (model s) (phi cfg st)))) /\
  model s' = reset_state (backward_and_sync (model s) u) /\
  t s' = t s /\
  t_start s' = t s /\
  (done = true -> use_average_reward cfg = false ->
   exists e, u_steps u !! 0%nat = Some e /\
             e_index e = (t s - 1)%Z /\
             e_R e == stored_reward cfg r).
Proof.
  intros Hop. rewrite stop_episode_and_train_unfold in Hop.
  destruct (update cfg _ (with_reward cfg r s)) as [[u1|e1] s1] eqn:Hupd;
    [|discriminate].
  injection Hop as <- <-.
  destruct (update_Ok_inv cfg _ _ _ _ Hupd)
    as (l & s2 & _ & _ & Hsame & Hu & Hs1 & Hch).
  destruct (same_but_baseline_fields _ _ Hsame) as (Hm & Ht & _).
  cbn [with_reward set_past_rewards model t] in Hm, Ht.
  assert (Hboot : u_bootstrap u1
                  = bootstrap_value (model s)
                      (if done then None else Some (phi cfg st))).
  { rewrite Hu. apply make_record_steps. }
  split; [rewrite Hboot; destruct done; reflexivity|].
  rewrite Hs1. cbn. rewrite Hm, Ht.
  split; [reflexivity|]. split; [reflexivity|]. split; [reflexivity|].
  intros -> Havg.
  destruct (update_first_entry cfg _ _ _ _ Hupd) as (e & He & Hi & Hr).
  cbn [with_reward set_past_rewards t past_rewards] in Hi, Hr.
  rewrite lookup_insert_eq in Hr. injection Hr as Hr.
  exists e. split; [exact He|]. split; [exact Hi|].
  destruct (chain_recurrence cfg _ _ _ _ _ _ _ _ Hch 0%nat e He)
    as (_ & _ & HR & _).
  rewrite HR. unfold next_R. rewrite Havg. cbn [R_before bootstrap_value].
  rewrite <- Hr. ring.
Qed.

End BaselineAndLosses.

(** ** Counters and keys along sequences of calls *)

Section Counters.

Context {Model State Obs Action Seed : Type}.
Context `{A3CModel Model Obs Action Seed}.
Variable cfg : config State Obs.

Local Abbreviation agent := (agent Model Obs).
Local Abbreviation op := (op (State := State) (Seed := Seed)).
Local Abbreviation event := (event (Action := Action)).

(** 1 for an [act_and_train] call that returned, 0 for any other call. *)
Definition took_step (o : op) (r : outcome event) : Z :=
  match o, r with
  | ActAndTrain _ _ _, Ok _ => 1
  | _, _ => 0
  end.

Fixpoint steps_taken (ops : list op) (rs : list (outcome event)) : Z :=
  match ops, rs with
  | o :: ops', r :: rs' => took_step o r + steps_taken ops' rs'
  | _, _ => 0
  end.

Lemma update_counters (sv : option Obs) (s : agent) :
  t (snd (update cfg sv s)) = t s /\
  match fst (update cfg sv s) with
  | Ok _ => t_start (snd (update cfg sv s)) = t s
  | Raise _ => t_start (snd (update cfg sv s)) = t_start s
  end.
Proof.
  destruct (update cfg sv s) as [[u|e] s1] eqn:Hupd; cbn [fst snd].
  - destruct (update_Ok_cleared cfg sv s s1 u Hupd) as [Hs Ht].
    split; [exact Ht|]. rewrite Hs. cbn. rewrite Hs in Ht. exact Ht.
  - destruct (update_Raise_inv cfg sv s s1 e Hupd)
      as [(_ & -> & _)|(_ & _ & Hsame & _)]; [auto|].
    destruct (same_but_baseline_fields _ _ Hsame) as (_ & -> & -> & _). auto.
Qed.

Lemma exec_counters (o : op) (s : agent) :
  t (snd (exec cfg o s)) = (t s + took_step o (fst (exec cfg o s)))%Z /\
  (t_start (snd (exec cfg o s)) = t_start s \/
   t_start (snd (exec cfg o s)) = t s).
Proof.
  destruct o as [st r seed|obs seed|st r done|]; cbn [exec]; unfold bind.
  - rewrite act_and_train_unfold.
    destruct (t s - t_start s =? t_max cfg)%Z.
    + pose proof (update_counters (Some (phi cfg st)) (with_reward cfg r s))
        as [Ht Hts].
      destruct (update cfg _ (with_reward cfg r s)) as [[u|e] s1];
        cbn [fst snd] in Ht, Hts |- *; unfold ret; cbn [fst snd took_step].
      * destruct (record_entry_fields (phi cfg st) seed s1)
          as (_ & _ & -> & -> & _). cbn in Ht, Hts. split; [lia|auto].
      * cbn in Ht, Hts. split; [lia|auto].
    + unfold ret. cbn [fst snd took_step].
      destruct (record_entry_fields (phi cfg st) seed (with_reward cfg r s))
        as (_ & _ & -> & -> & _). cbn. split; [lia|auto].
  - rewrite act_eq. cbn. split; [lia|auto].
  - rewrite stop_episode_and_train_unfold.
    pose proof (update_counters (if done then None else Some (phi cfg st))
                  (with_reward cfg r s)) as [Ht Hts].
    destruct (update cfg _ (with_reward cfg r s)) as [[u|e] s1];
      cbn [fst snd] in Ht, Hts |- *; unfold ret; cbn [fst snd took_step];
      cbn in Ht, Hts |- *; split; try lia; auto.
  - cbn. split; [lia|auto].
Qed.

(** X6: [t] counts the [act_and_train] calls that returned: after any
    sequence of calls it has grown by their number, so it never decreases
    and no other call moves it; [t_start] stays between its old value and
    [t]. *)
Theorem t_counts_training_steps (ops : list op) (s : agent) :
  (t_start s <= t s)%Z ->
  t (snd (run cfg ops s)) = (t s + steps_taken ops (fst (run cfg ops s)))%Z /\
  (0 <= steps_taken ops (fst (run cfg ops s)))%Z /\
  (t_start s <= t_start (snd (run cfg ops s)) <= t (snd (run cfg ops s)))%Z.
Proof.
  revert s. induction ops as [|o ops IH]; intros s Hle.
  - cbn. lia.
  - cbn [run]. destruct (exec_counters o s) as [Ht Hts].
    destruct (exec cfg o s) as [r1 s1]. cbn [fst snd] in Ht, Hts.
    assert (H01 : (0 <= took_step o r1 <= 1)%Z).
    { unfold took_step. destruct o, r1; lia. }
    destruct (IH s1 ltac:(lia)) as (IHt & IH0 & IHts).
    destruct (run cfg ops s1) as [rs s2]. cbn [fst snd] in IHt, IH0, IHts |- *.
    cbn [steps_taken]. lia.
Qed.

End Counters.

(** ** The keys the dictionaries hold *)

Lemma gmap_size_range {V} (m : gmap Z V) (a b : Z) :
  (forall i, is_Some (m !! i) <-> (a <= i < b)%Z) ->
  size m = Z.to_nat (b - a).
Proof.
  intros Hkeys. rewrite <- (size_dom (D := gset Z)).
  assert (Hdom : dom m = list_to_set (seqZ a (b - a)) :> gset Z).
  { apply set_eq. intros i.
    rewrite elem_of_dom, elem_of_list_to_set, elem_of_seqZ, Hkeys. lia. }
  rewrite Hdom, size_list_to_set by apply NoDup_seqZ.
  apply length_seqZ.
Qed.

Lemma gmap_size_within {V} (m : gmap Z V) (a b : Z) :
  (forall i, is_Some (m !! i) -> (a <= i < b)%Z) ->
  (size m <= Z.to_nat (b - a))%nat.
Proof.
  intros Hkeys. rewrite <- (size_dom (D := gset Z)).
  rewrite <- (length_seqZ a (b - a)).
  rewrite <- (size_list_to_set (C := gset Z)) by apply NoDup_seqZ.
  apply subseteq_size. intros i Hi.
  rewrite elem_of_list_to_set, elem_of_seqZ. apply elem_of_dom in Hi.
  specialize (Hkeys i Hi). lia.
Qed.

Section Keys.

Context {Model State Obs Action Seed : Type}.
Context `{A3CModel Model Obs Action Seed}.
Variable cfg : config State Obs.

Local Abbreviation agent := (agent Model Obs).
Local Abbreviation op := (op (State := State) (Seed := Seed)).

(** The four dictionaries [act_and_train] writes when it records a step
    hold the keys of the window and no other; the rewards are at keys of
    the window or just below it. *)
Definition window_keys (s : agent) : Prop :=
  (t_start s <= t s)%Z /\
  (forall i, is_Some (past_values s !! i) <-> (t_start s <= i < t s)%Z) /\
  (forall i, is_Some (past_action_log_prob s !! i)
             <-> (t_start s <= i < t s)%Z) /\
  (forall i, is_Some (past_action_entropy s !! i)
             <-> (t_start s <= i < t s)%Z) /\
  (forall i, is_Some (past_states s !! i) <-> (t_start s <= i < t s)%Z) /\
  (forall i, is_Some (past_rewards s !! i) -> (t_start s - 1 <= i < t s)%Z).

Ltac empty_keys :=
  repeat split; try lia; intros; try lia;
  repeat match goal with
         | Hi : is_Some (∅ !! _) |- _ =>
             rewrite lookup_empty in Hi; destruct Hi; discriminate
         end.

Lemma window_keys_init (m : Model) : window_keys (init m).
Proof.
  unfold window_keys, init. cbn. empty_keys.
Qed.

Lemma window_keys_with_reward (r : Q) (s : agent) :
  window_keys s -> window_keys (with_reward cfg r s).
Proof.
  intros (Hle & Hv & Hlp & Hen & Hst & Hrw).
  unfold window_keys, with_reward. cbn.
  split; [exact Hle|]. split; [exact Hv|]. split; [exact Hlp|].
  split; [exact Hen|]. split; [exact Hst|].
  intros i Hi. apply lookup_insert_is_Some' in Hi as [<-|Hi]; [lia|].
  apply Hrw in Hi. lia.
Qed.

Lemma window_keys_same (s s' : agent) :
  same_but_baseline s s' -> window_keys s -> window_keys s'.
Proof. unfold same_but_baseline, window_keys. intros ->. cbn. tauto. Qed.

Lemma window_keys_set_model (f : Model -> Model) (s : agent) :
  window_keys s -> window_keys (set_model f s).
Proof. unfold window_keys. cbn. tauto. Qed.

Lemma window_keys_update (sv : option Obs) (s : agent) :
  window_keys s -> window_keys (snd (update cfg sv s)).
Proof.
  intros Hk. destruct (update cfg sv s) as [[u|e] s1] eqn:Hupd; cbn [snd].
  - destruct (update_Ok_cleared cfg sv s s1 u Hupd) as [Hs _].
    rewrite Hs. unfold window_keys, clear_window. cbn. empty_keys.
  - destruct (update_Raise_inv cfg sv s s1 e Hupd)
      as [(_ & -> & _)|(_ & _ & Hsame & _)]; [exact Hk|].
    eapply window_keys_same; eassumption.
Qed.

Lemma window_keys_record_entry (sv : Obs) (seed : Seed) (s : agent) :
  window_keys s -> window_keys (snd (record_entry sv seed s)).
Proof.
  intros (Hle & Hv & Hlp & Hen & Hst & Hrw).
  destruct (record_entry_fields sv seed s)
    as (_ & _ & Et & Ets & Elp & Een & Est & Er & Ev & _).
  unfold window_keys. rewrite Et, Ets, Elp, Een, Est, Er, Ev.
  split; [lia|].
  split; [intros i; rewrite lookup_insert_is_Some', Hv; lia|].
  split; [intros i; rewrite lookup_insert_is_Some', Hlp; lia|].
  split; [intros i; rewrite lookup_insert_is_Some', Hen; lia|].
  split; [intros i; rewrite lookup_insert_is_Some', Hst; lia|].
  intros i Hi. apply Hrw in Hi. lia.
Qed.

Lemma window_keys_exec (o : op) (s : agent) :
  window_keys s -> window_keys (snd (exec cfg o s)).
Proof.
  intros Hk. rewrite exec_snd.
  destruct o as [st r seed|obs seed|st r done|].
  - rewrite act_and_train_unfold.
    pose proof (window_keys_with_reward r s Hk) as Hw.
    destruct (t s - t_start s =? t_max cfg)%Z.
    + pose proof (window_keys_update (Some (phi cfg st)) _ Hw) as Hu.
      destruct (update cfg _ (with_reward cfg r s)) as [[u|e] s1];
        cbn [snd] in Hu |- *; [|exact Hu].
      apply window_keys_record_entry. exact Hu.
    + cbn [snd]. apply window_keys_record_entry. exact Hw.
  - rewrite act_eq. cbn [snd]. apply window_keys_set_model. exact Hk.
  - rewrite stop_episode_and_train_unfold.
    pose proof (window_keys_with_reward r s Hk) as Hw.
    pose proof (window_keys_update (if done then None else Some (phi cfg st))
                  _ Hw) as Hu.
    destruct (update cfg _ (with_reward cfg r s)) as [[u|e] s1];
      cbn [snd] in Hu |- *; [|exact Hu].
    apply window_keys_set_model. exact Hu.
  - apply window_keys_set_model. exact Hk.
Qed.

(** X7: on every reachable state the dictionaries hold exactly the window:
    values, log-probabilities, entropies and states have the keys
    [t_start .. t - 1] and no other, so the key [t] that [act_and_train]
    writes next is new and each of them has [t - t_start] entries; the
    rewards have keys in [t_start - 1 .. t - 1] only, so at most one entry
    more.  With a horizon [t_max >= 0] no dictionary ever holds more than
    [t_max] entries, the rewards [t_max + 1]. *)
Theorem reachable_window_keys (s : agent) :
  reachable cfg s ->
  window_keys s /\
  past_values s !! t s = None /\
  past_action_log_prob s !! t s = None /\
  past_action_entropy s !! t s = None /\
  past_states s !! t s = None /\
  size (past_values s) = Z.to_nat (t s - t_start s) /\
  size (past_action_log_prob s) = Z.to_nat (t s - t_start s) /\
  size (past_action_entropy s) = Z.to_nat (t s - t_start s) /\
  size (past_states s) = Z.to_nat (t s - t_start s) /\
  (size (past_rewards s) <= Z.to_nat (t s - t_start s) + 1)%nat /\
  ((0 <= t_max cfg)%Z ->
   (size (past_values s) <= Z.to_nat (t_max cfg))%nat /\
   (size (past_rewards s) <= Z.to_nat (t_max cfg) + 1)%nat).
Proof.
  intros Hreach.
  assert (Hk : window_keys s).
  { induction Hreach as [m|o s _ IH];
      [apply window_keys_init|apply window_keys_exec; exact IH]. }
  pose proof Hk as (Hle & Hv & Hlp & Hen & Hst & Hrw).
  assert (Hnone : forall V (d : gmap Z V),
            (forall i, is_Some (d !! i) <-> (t_start s <= i < t s)%Z) ->
            d !! t s = None).
  { intros V d Hd. destruct (d !! t s) eqn:E; [|reflexivity].
    assert (Hin : is_Some (d !! t s)) by (rewrite E; eauto).
    apply Hd in Hin. lia. }
  assert (Hsr : (size (past_rewards s) <= Z.to_nat (t s - t_start s) + 1)%nat).
  { pose proof (gmap_size_within (past_rewards s) (t_start s - 1) (t s) Hrw).
    lia. }
  pose proof (gmap_size_range _ _ _ Hv) as Hsv.
  split; [exact Hk|].
  split; [apply Hnone; exact Hv|]. split; [apply Hnone; exact Hlp|].
  split; [apply Hnone; exact Hen|]. split; [apply Hnone; exact Hst|].
  split; [exact Hsv|].
  split; [apply gmap_size_range; exact Hlp|].
  split; [apply gmap_size_range; exact Hen|].
  split; [apply gmap_size_range; exact Hst|].
  split; [exact Hsr|].
  intros Hmax. destruct (reachable_inv cfg s Hreach) as [_ Hlen].
  specialize (Hlen Hmax). lia.
Qed.

End Keys.

(** ** How the calls compose *)

Section Protocol.

Context {Model State Obs Action Seed : Type}.
Context `{A3CModel Model Obs Action Seed}.
Variable cfg : config State Obs.

Local Abbreviation agent := (agent Model Obs).
Local Abbreviation op := (op (State := State) (Seed := Seed)).
Local Abbreviation event := (event (Action := Action)).

(** [act_and_train] on an agent whose window has its keys, and is not empty
    if it is as long as the horizon. *)
Lemma act_and_train_step (st : State) (r : Q) (seed : Seed) (s : agent) :
  keys_ok s ->
  ((t s - t_start s = t_max cfg)%Z -> (t_start s < t s)%Z) ->
  exists a upd s',
    act_and_train cfg st r seed s = (Ok (a, upd), s') /\
    keys_ok s' /\
    t s' = (t s + 1)%Z /\
    (is_Some upd <-> (t s - t_start s = t_max cfg)%Z) /\
    (forall u, upd = Some u ->
       e_index <$> u_steps u = reversed_range (t_start s) (t s) /\
       t_start s' = t s) /\
    (upd = None -> t_start s' = t_start s).
Proof.
  intros Hk Hne. pose proof (with_reward_keys_full cfg r s Hk) as Hfull.
  rewrite act_and_train_unfold.
  destruct (t s - t_start s =? t_max cfg)%Z eqn:Hlen.
  - assert (Hready : window_ready cfg (with_reward cfg r s)).
    { apply keys_full_ready; [exact Hfull|]. cbn. apply Hne. lia. }
    destruct (proj2 (update_Ok_iff cfg (Some (phi cfg st)) _) Hready)
      as (u & s1 & Hupd).
    rewrite Hupd.
    destruct (update_Ok_keys_full cfg _ _ _ _ Hupd) as (Hf1 & Ht1 & Hts1).
    destruct (update_Ok_inv cfg _ _ _ _ Hupd)
      as (l & s2 & _ & _ & _ & _ & _ & Hch).
    destruct (record_entry_fields (phi cfg st) seed s1)
      as (_ & _ & Ht & Hts & _).
    cbn [with_reward set_past_rewards t t_start] in Ht1, Hts1.
    eexists _, (Some u), _. split; [reflexivity|].
    split; [apply record_entry_keys_ok; exact Hf1|].
    split; [rewrite Ht, Ht1; reflexivity|].
    split; [split; [intros _; lia|eauto]|].
    split; [|discriminate].
    intros u' [= <-].
    split; [exact (chain_indices _ _ _ _ _ _ _ _ _ Hch)|].
    rewrite Hts, Hts1. reflexivity.
  - destruct (record_entry_fields (phi cfg st) seed (with_reward cfg r s))
      as (_ & _ & Ht & Hts & _).
    cbn [with_reward set_past_rewards t t_start] in Ht, Hts.
    eexists _, None, _. split; [reflexivity|].
    split; [apply record_entry_keys_ok; exact Hfull|].
    split; [exact Ht|].
    split; [split; [intros [? [=]]|intros; lia]|].
    split; [discriminate|]. intros _. exact Hts.
Qed.

Lemma run_cons (o : op) (ops : list op) (s : agent) :
  run cfg (o :: ops) s
  = (fst (exec cfg o s) :: fst (run cfg ops (snd (exec cfg o s))),
     snd (run cfg ops (snd (exec cfg o s)))).
Proof.
  cbn [run]. destruct (exec cfg o s) as [r s1]. cbn [fst snd].
  destruct (run cfg ops s1) as [rs s2]. reflexivity.
Qed.

(** The calls of a training loop that only steps. *)
Definition train_calls (args : list (State * Q * Seed)) : list op :=
  (fun a => ActAndTrain (fst (fst a)) (snd (fst a)) (snd a)) <$> args.

(** [ts] is where the window starts when [j] steps have been taken: the
    last multiple of the horizon below [j]. *)
Definition window_start (j ts : Z) : Prop :=
  (0 <= ts)%Z /\
  (ts mod t_max cfg = 0)%Z /\
  ((j = 0 /\ ts = 0)%Z \/ (ts < j <= ts + t_max cfg)%Z).

Lemma window_start_update (j ts : Z) :
  (0 < t_max cfg)%Z ->
  window_start j ts ->
  ((j - ts = t_max cfg)%Z <-> (0 < j /\ j mod t_max cfg = 0)%Z).
Proof.
  intros Hpos (H0 & Hmod & Hcase). split.
  - intros Hlen. split; [lia|].
    replace j with (ts + 1 * t_max cfg)%Z by lia.
    rewrite Z.mod_add by lia. exact Hmod.
  - intros [Hj Hjmod]. destruct Hcase as [[-> _]|Hin]; [lia|].
    pose proof (Z.div_mod ts (t_max cfg) ltac:(lia)) as Ha.
    pose proof (Z.div_mod j (t_max cfg) ltac:(lia)) as Hb.
    rewrite Hmod in Ha. rewrite Hjmod in Hb.
    set (a := (ts / t_max cfg)%Z) in *. set (b := (j / t_max cfg)%Z) in *.
    assert (Hab : (a < b)%Z) by nia.
    assert (Hba : (b <= a + 1)%Z) by nia.
    assert (b = a + 1)%Z as -> by lia. lia.
Qed.

Lemma train_calls_schedule (args : list (State * Q * Seed)) (s : agent) :
  (0 < t_max cfg)%Z ->
  keys_ok s ->
  window_start (t s) (t_start s) ->
  length (fst (run cfg (train_calls args) s)) = length args /\
  t (snd (run cfg (train_calls args) s)) = (t s + Z.of_nat (length args))%Z /\
  forall (i : nat) (r : outcome event),
    fst (run cfg (train_calls args) s) !! i = Some r ->
    let j := (t s + Z.of_nat i)%Z in
    exists a upd,
      r = Ok {| ev_action := Some a; ev_update := upd |} /\
      (is_Some upd <-> (0 < j /\ j mod t_max cfg = 0)%Z) /\
      (forall u, upd = Some u ->
         e_index <$> u_steps u = reversed_range (j - t_max cfg) j).
Proof.
  intros Hpos. revert s. induction args as [|[[st r] seed] args IH];
    intros s Hk Hws.
  - cbn. split; [reflexivity|]. split; [lia|].
    intros i r Hi. rewrite lookup_nil in Hi. discriminate.
  - change (train_calls ((st, r, seed) :: args))
      with (ActAndTrain st r seed :: train_calls args).
    rewrite run_cons.
    pose proof (window_start_update _ _ Hpos Hws) as Hupd.
    destruct (act_and_train_step st r seed s Hk ltac:(lia))
      as (a & upd & s1 & Hact & Hk1 & Ht1 & Hiff & Hsome & Hnone).
    assert (Hexec : exec cfg (ActAndTrain st r seed) s
                    = (Ok {| ev_action := Some a; ev_update := upd |}, s1)).
    { cbn [exec]. unfold bind. rewrite Hact. reflexivity. }
    rewrite Hexec. cbn [fst snd].
    assert (Hws1 : window_start (t s1) (t_start s1)).
    { destruct Hws as (H0 & Hmod & Hcase). destruct upd as [u|].
      - destruct (Hsome u eq_refl) as [_ Hts]. rewrite Hts, Ht1.
        assert (Hlen : (t s - t_start s = t_max cfg)%Z) by (apply Hiff; eauto).
        split; [lia|]. split; [apply Hupd; exact Hlen|]. right. lia.
      - rewrite (Hnone eq_refl), Ht1.
        assert (Hlen : (t s - t_start s <> t_max cfg)%Z).
        { intros Hlen. apply Hiff in Hlen. destruct Hlen; discriminate. }
        split; [exact H0|]. split; [exact Hmod|]. right. lia. }
    destruct (IH s1 Hk1 Hws1) as (IHlen & IHt & IHres).
    destruct (run cfg (train_calls args) s1) as [rs s2].
    cbn [fst snd length] in IHlen, IHt, IHres |- *.
    split; [rewrite IHlen; reflexivity|]. split; [lia|].
    intros [|i] r0 Hi.
    + injection Hi as <-. exists a, upd. split; [reflexivity|].
      replace (t s + Z.of_nat 0)%Z with (t s) by lia.
      split; [rewrite Hiff; exact Hupd|].
      intros u ->. destruct (Hsome u eq_refl) as [Hidx _].
      assert (Hlen : (t s - t_start s = t_max cfg)%Z) by (apply Hiff; eauto).
      rewrite Hidx. f_equal. lia.
    + change (rs !! i = Some r0) in Hi.
      destruct (IHres i r0 Hi) as (a' & upd' & Hr & Hiff' & Hidx').
      replace (t s + Z.of_nat (S i))%Z with (t s1 + Z.of_nat i)%Z by lia.
      exists a', upd'. auto.
Qed.

(** X8: a fresh agent with horizon [t_max >= 1] that is only stepped:
    every [act_and_train] call returns, [t] is the number of calls, and the
    call number [j] (from 0) makes an update exactly when [j] is a positive
    multiple of [t_max]; that update processes the [t_max] steps
    [j - t_max .. j - 1], so consecutive updates consume adjoining windows
    and every step once. *)
Theorem update_schedule (m : Model) (args : list (State * Q * Seed)) :
  (0 < t_max cfg)%Z ->
  length (fst (run cfg (train_calls args) (init m))) = length args /\
  t (snd (run cfg (train_calls args) (init m))) = Z.of_nat (length args) /\
  forall (j : nat) (r : outcome event),
    fst (run cfg (train_calls args) (init m)) !! j = Some r ->
    exists a upd,
      r = Ok {| ev_action := Some a; ev_update := upd |} /\
      (is_Some upd <-> (0 < Z.of_nat j /\ Z.of_nat j mod t_max cfg = 0)%Z) /\
      (forall u, upd = Some u ->
         e_index <$> u_steps u
         = reversed_range (Z.of_nat j - t_max cfg) (Z.of_nat j)).
Proof.
  intros Hpos.
  destruct (train_calls_schedule args (init m) Hpos) as (Hlen & Ht & Hres).
  - destruct (inv_init cfg m) as [Hk _]. exact Hk.
  - split; [cbn; lia|]. split; [apply Z.mod_0_l; cbn; lia|].
    left. split; reflexivity.
  - split; [exact Hlen|]. split; [exact Ht|exact Hres].
Qed.

Lemma np_clip_idempotent (r : Q) :
  np_clip (np_clip r (-1) 1) (-1) 1 = np_clip r (-1) 1.
Proof.
  destruct (np_clip_cases r) as (Hlo & Hmid & Hhi).
  destruct (Qlt_le_dec r (-1)) as [H1|H1]; [rewrite Hlo by exact H1; reflexivity|].
  destruct (Qlt_le_dec 1 r) as [H2|H2]; [rewrite Hhi by exact H2; reflexivity|].
  rewrite (Hmid (conj H1 H2)). apply Hmid. split; assumption.
Qed.

(** X9: with the clipping flag set, a caller that clips the reward to
    [-1, 1] itself gets the same results and the same agent from
    [act_and_train] and [stop_episode_and_train] as one that passes the raw
    reward. *)
Theorem preclipped_reward_equivalent (st : State) (r : Q) (seed : Seed)
    (done : bool) (s : agent) :
  clip_reward cfg = true ->
  act_and_train cfg st (np_clip r (-1) 1) seed s
  = act_and_train cfg st r seed s /\
  stop_episode_and_train cfg st (np_clip r (-1) 1) done s
  = stop_episode_and_train cfg st r done s.
Proof.
  intros Hclip.
  assert (Hw : with_reward cfg (np_clip r (-1) 1) s = with_reward cfg r s).
  { unfold with_reward, stored_reward. rewrite Hclip, np_clip_idempotent.
    reflexivity. }
  rewrite !act_and_train_unfold, !stop_episode_and_train_unfold, Hw.
  split; reflexivity.
Qed.

(** [act] calls taken out of a sequence of calls, and their results taken
    out of the results. *)
Definition is_act (o : op) : bool :=
  match o with
  | Act _ _ => true
  | _ => false
  end.

Fixpoint without_act (ops : list op) : list op :=
  match ops with
  | [] => []
  | o :: ops' => if is_act o then without_act ops' else o :: without_act ops'
  end.

Fixpoint without_act_results (ops : list op) (rs : list (outcome event))
  : list (outcome event) :=
  match ops, rs with
  | o :: ops', r :: rs' =>
      if is_act o then without_act_results ops' rs'
      else r :: without_act_results ops' rs'
  | _, _ => []
  end.

(** X10: for a model that evaluation does not change (a model without
    recurrent state), [act] leaves the whole agent as it is, so [act] calls
    can be put anywhere into a sequence of calls without changing the
    results of the other calls or the agent at the end. *)
Theorem act_calls_do_not_disturb (ops : list op) (s : agent) :
  (forall (m : Model) (o : Obs), snd (pi_and_v m o) = m) ->
  (forall obs seed, snd (act cfg obs seed s) = s) /\
  fst (run cfg (without_act ops) s)
  = without_act_results ops (fst (run cfg ops s)) /\
  snd (run cfg (without_act ops) s) = snd (run cfg ops s).
Proof.
  intros Hpure.
  assert (Hact : forall obs seed s0, snd (act cfg obs seed s0) = s0).
  { intros obs seed s0. rewrite act_eq. cbn [snd]. rewrite Hpure.
    destruct s0; reflexivity. }
  split; [intros obs seed; apply Hact|].
  revert s. induction ops as [|o ops IH]; intros s; [split; reflexivity|].
  cbn [without_act]. destruct (is_act o) eqn:Ho.
  - rewrite (run_cons o). cbn [fst snd without_act_results]. rewrite Ho.
    destruct o as [| obs seed | |]; try discriminate.
    rewrite exec_snd, Hact. apply IH.
  - rewrite !run_cons. cbn [fst snd without_act_results]. rewrite Ho.
    destruct (IH (snd (exec cfg o s))) as [IH1 IH2].
    rewrite IH1, IH2. split; reflexivity.
Qed.

(** X11: [stop_episode_and_train] cannot be called twice in a row: on a
    reachable state the first call leaves the window empty, whether it
    returned or raised, and the second raises [AssertionError]. *)
Theorem stop_twice_fails (st1 st2 : State) (r1 r2 : Q) (done1 done2 : bool)
    (s : agent) :
  reachable cfg s ->
  let s1 := snd (stop_episode_and_train cfg st1 r1 done1 s) in
  t s1 = t_start s1 /\
  stop_episode_and_train cfg st2 r2 done2 s1
  = (Raise AssertionError, with_reward cfg r2 s1).
Proof.
  intros Hreach s1.
  assert (Heq : t s1 = t_start s1).
  { apply stop_episode_and_train_empties.
    apply (reachable_inv cfg s Hreach). }
  split; [exact Heq|].
  rewrite stop_episode_and_train_unfold, update_unfold.
  cbn [with_reward set_past_rewards t t_start].
  replace (t_start s1 <? t s1)%Z with false by lia. reflexivity.
Qed.

(** X12: a [stop_episode_and_train] call made on an empty window fails and
    does no harm: whatever calls follow give the same results as if the
    failed call had not been made, and end in the same agent but for the
    reward left below the window. *)
Theorem failed_stop_is_harmless (st : State) (r : Q) (done : bool)
    (ops : list op) (s : agent) :
  t s = t_start s ->
  let s1 := snd (stop_episode_and_train cfg st r done s) in
  fst (stop_episode_and_train cfg st r done s) = Raise AssertionError /\
  fst (run cfg ops s1) = fst (run cfg ops s) /\
  sim (snd (run cfg ops s1)) (snd (run cfg ops s)).
Proof.
  intros Heq s1.
  assert (Hs1 : stop_episode_and_train cfg st r done s
                = (Raise AssertionError, with_reward cfg r s)).
  { rewrite stop_episode_and_train_unfold, update_unfold.
    cbn [with_reward set_past_rewards t t_start].
    replace (t_start s <? t s)%Z with false by lia. reflexivity. }
  subst s1. rewrite Hs1. cbn [fst snd]. split; [reflexivity|].
  apply run_sim. unfold sim, agree_off, with_reward. cbn. repeat split.
  intros i Hi. apply lookup_insert_ne. lia.
Qed.

Lemma run_app (ops1 ops2 : list op) (s : agent) :
  run cfg (ops1 ++ ops2) s
  = (fst (run cfg ops1 s) ++ fst (run cfg ops2 (snd (run cfg ops1 s))),
     snd (run cfg ops2 (snd (run cfg ops1 s)))).
Proof.
  revert s. induction ops1 as [|o ops1 IH]; intros s.
  - cbn. destruct (run cfg ops2 s); reflexivity.
  - rewrite <- app_comm_cons, !run_cons, IH. reflexivity.
Qed.

(** Steps that do not fill the window make no update. *)
Lemma train_calls_below_horizon (args : list (State * Q * Seed)) (s : agent) :
  keys_ok s ->
  (t s - t_start s + Z.of_nat (length args) <= t_max cfg)%Z ->
  Forall (fun r => exists a,
            r = Ok {| ev_action := Some a; ev_update := None |})
    (fst (run cfg (train_calls args) s)) /\
  length (fst (run cfg (train_calls args) s)) = length args /\
  keys_ok (snd (run cfg (train_calls args) s)) /\
  t (snd (run cfg (train_calls args) s)) = (t s + Z.of_nat (length args))%Z /\
  t_start (snd (run cfg (train_calls args) s)) = t_start s.
Proof.
  revert s. induction args as [|[[st r] seed] args IH]; intros s Hk Hlen.
  - cbn. split; [constructor|]. split; [reflexivity|]. split; [exact Hk|].
    split; [lia|reflexivity].
  - change (train_calls ((st, r, seed) :: args))
      with (ActAndTrain st r seed :: train_calls args).
    rewrite run_cons. cbn [length] in Hlen.
    destruct (act_and_train_step st r seed s Hk ltac:(lia))
      as (a & upd & s1 & Hact & Hk1 & Ht1 & Hiff & _ & Hnone).
    assert (Hupd : upd = None).
    { destruct upd as [u|]; [|reflexivity].
      assert (t s - t_start s = t_max cfg)%Z by (apply Hiff; eauto). lia. }
    subst upd. specialize (Hnone eq_refl).
    assert (Hexec : exec cfg (ActAndTrain st r seed) s
                    = (Ok {| ev_action := Some a; ev_update := None |}, s1)).
    { cbn [exec]. unfold bind. rewrite Hact. reflexivity. }
    rewrite Hexec. cbn [fst snd].
    destruct (IH s1 Hk1 ltac:(lia)) as (IHall & IHlen & IHk & IHt & IHts).
    split; [constructor; [eauto|exact IHall]|].
    split; [cbn [length]; rewrite IHlen; reflexivity|].
    split; [exact IHk|]. split; [cbn [length]; lia|]. congruence.
Qed.

(** X13: an episode that fits into the horizon is trained on once, at its
    end.  From a reachable agent with an empty window, [k] steps with
    [1 <= k <= t_max] followed by [stop_episode_and_train]: no step makes an
    update, the final call returns with the one update, which processes
    exactly the [k] steps of the episode, and the window is empty
    afterwards. *)
Theorem short_episode_single_update (args : list (State * Q * Seed))
    (st : State) (r : Q) (done : bool) (s : agent) :
  reachable cfg s ->
  t s = t_start s ->
  (1 <= Z.of_nat (length args) <= t_max cfg)%Z ->
  exists rs u s',
    run cfg (train_calls args ++ [StopEpisodeAndTrain st r done]) s
    = (rs ++ [Ok {| ev_action := None; ev_update := Some u |}], s') /\
    length rs = length args /\
    Forall (fun r => exists a,
              r = Ok {| ev_action := Some a; ev_update := None |}) rs /\
    e_index <$> u_steps u
    = reversed_range (t s) (t s + Z.of_nat (length args)) /\
    t s' = (t s + Z.of_nat (length args))%Z /\
    t_start s' = t s'.
Proof.
  intros Hreach Heq Hk.
  destruct (reachable_inv cfg s Hreach) as [Hkeys _].
  destruct (train_calls_below_horizon args s Hkeys ltac:(lia))
    as (Hall & Hlen & Hk1 & Ht1 & Hts1).
  set (s1 := snd (run cfg (train_calls args) s)) in *.
  assert (Hready : window_ready cfg (with_reward cfg r s1)).
  { apply keys_full_ready; [apply with_reward_keys_full; exact Hk1|].
    cbn. lia. }
  destruct (proj2 (update_Ok_iff cfg (if done then None else Some (phi cfg st))
                     _) Hready) as (u & s2 & Hupd).
  destruct (update_Ok_keys_full cfg _ _ _ _ Hupd) as (_ & Ht2 & Hts2).
  destruct (update_Ok_inv cfg _ _ _ _ Hupd)
    as (l & s3 & _ & _ & _ & _ & _ & Hch).
  cbn [with_reward set_past_rewards t t_start past_rewards past_values model
       average_reward] in Ht2, Hts2, Hch.
  exists (fst (run cfg (train_calls args) s)), u, (set_model reset_state s2).
  split.
  - rewrite run_app. fold s1. cbn [run exec]. unfold bind.
    rewrite stop_episode_and_train_unfold, Hupd. reflexivity.
  - split; [exact Hlen|]. split; [exact Hall|]. split.
    + rewrite (chain_indices _ _ _ _ _ _ _ _ _ Hch), Hts1, Ht1, Heq.
      reflexivity.
    + cbn. rewrite Ht2, Hts2, Ht1. split; reflexivity.
Qed.

End Protocol.

(** ** Instances on the constant model *)

(** A window of one step whose log-probability is missing. *)
Definition window_without_log_prob : agent unit Z :=
  {| model := tt; t := 1; t_start := 0;
     past_action_log_prob := ∅; past_action_entropy := ConstModel.zeros 1;
     past_states := {[ 0%Z := 0%Z ]}; past_rewards := {[ 0%Z := 1 ]};
     past_values := ConstModel.zeros 1; average_reward := 0 |}.

Lemma update_keyerror_after_baseline_write_witness :
  fst (update ConstModel.cfg_avg None window_without_log_prob)
  = Raise KeyError /\
  average_reward (snd (update ConstModel.cfg_avg None window_without_log_prob))
  == 1 # 100.
Proof.
  rewrite (update_keyerror_after_baseline_write ConstModel.cfg_avg None
             window_without_log_prob 1 0);
    [split; [reflexivity|vm_compute; reflexivity]
    |reflexivity|reflexivity|reflexivity|reflexivity
    |intros _; vm_compute; eauto|reflexivity].
Defined.

Lemma baseline_fixed_without_average_mode_witness :
  average_reward
    (snd (run ConstModel.cfg
            [ActAndTrain 0%Z 1 tt; StopEpisodeAndTrain 0%Z 1 true]
            ConstModel.fresh)) = 0.
Proof.
  destruct (baseline_fixed_without_average_mode ConstModel.cfg
              [ActAndTrain 0%Z 1 tt; StopEpisodeAndTrain 0%Z 1 true]
              ConstModel.fresh eq_refl) as [Hs _].
  exact Hs.
Defined.

Lemma update_losses_witness :
  exists u s',
    update ConstModel.cfg None (ConstModel.window 3) = (Ok u, s') /\
    length (u_steps u) = 3%nat /\
    u_total_loss u = u_pi_loss u + u_v_loss u.
Proof.
  eexists. eexists. split; [vm_compute; reflexivity|].
  destruct (update_losses ConstModel.cfg None (ConstModel.window 3) _ _
              ltac:(vm_compute; reflexivity))
    as (_ & Hlen & _ & _ & _ & Htot).
  split; [exact Hlen|exact Htot].
Defined.

Lemma stop_episode_and_train_bootstrap_witness :
  exists u s',
    stop_episode_and_train ConstModel.cfg 0%Z 1 true (ConstModel.window 3)
    = (Ok u, s') /\
    u_bootstrap u = 0.
Proof.
  eexists. eexists. split; [vm_compute; reflexivity|].
  destruct (stop_episode_and_train_bootstrap ConstModel.cfg 0%Z 1 true
              (ConstModel.window 3) _ _ ltac:(vm_compute; reflexivity))
    as (Hboot & _).
  exact Hboot.
Defined.

Lemma t_counts_training_steps_witness :
  (t_start ConstModel.fresh <= t ConstModel.fresh)%Z /\
  t (snd (run ConstModel.cfg
            [ActAndTrain 0%Z 1 tt; Act 0%Z tt; StopEpisodeAndTrain 0%Z 1 true]
            ConstModel.fresh))
  = (t ConstModel.fresh
     + steps_taken
         [ActAndTrain 0%Z 1 tt; Act 0%Z tt; StopEpisodeAndTrain 0%Z 1 true]
         (fst (run ConstModel.cfg
                 [ActAndTrain 0%Z 1 tt; Act 0%Z tt;
                  StopEpisodeAndTrain 0%Z 1 true]
                 ConstModel.fresh)))%Z.
Proof.
  split; [reflexivity|].
  destruct (t_counts_training_steps ConstModel.cfg
              [ActAndTrain 0%Z 1 tt; Act 0%Z tt; StopEpisodeAndTrain 0%Z 1 true]
              ConstModel.fresh ltac:(reflexivity)) as (Ht & _).
  exact Ht.
Defined.

(** After two steps the four dictionaries hold the keys 0 and 1 and no
    other, and the rewards the keys -1 and 0. *)
Lemma reachable_window_keys_witness :
  reachable ConstModel.cfg (stepped 2) /\
  t_start (stepped 2) = 0%Z /\
  t (stepped 2) = 2%Z /\
  (forall i, is_Some (past_values (stepped 2) !! i) <-> (0 <= i < 2)%Z) /\
  (forall i, is_Some (past_states (stepped 2) !! i) <-> (0 <= i < 2)%Z) /\
  (forall i, is_Some (past_rewards (stepped 2) !! i) -> (-1 <= i < 2)%Z) /\
  is_Some (past_rewards (stepped 2) !! (-1)%Z) /\
  past_values (stepped 2) !! 2%Z = None /\
  size (past_values (stepped 2)) = 2%nat /\
  (size (past_rewards (stepped 2)) <= 3)%nat.
Proof.
  assert (Hreach : reachable ConstModel.cfg (stepped 2)).
  { unfold stepped. cbn [Nat.iter nat_rect].
    repeat apply reachable_exec. apply reachable_init. }
  destruct (reachable_window_keys ConstModel.cfg (stepped 2) Hreach)
    as ((_ & Hv & _ & _ & Hst & Hrw) & Hnew & _ & _ & _ & Hsize & _ & _ & _
        & Hsr & _).
  split; [exact Hreach|]. split; [reflexivity|]. split; [reflexivity|].
  split; [exact Hv|]. split; [exact Hst|]. split; [exact Hrw|].
  split; [vm_compute; eauto|]. split; [exact Hnew|].
  split; [exact Hsize|exact Hsr].
Defined.

Lemma update_schedule_witness :
  (0 < t_max ConstModel.cfg)%Z /\
  t (snd (run ConstModel.cfg
            (train_calls [(0%Z, 1, tt); (0%Z, 1, tt); (0%Z, 1, tt);
                          (0%Z, 1, tt)])
            (init tt))) = 4%Z.
Proof.
  split; [reflexivity|].
  destruct (update_schedule ConstModel.cfg tt
              [(0%Z, 1, tt); (0%Z, 1, tt); (0%Z, 1, tt); (0%Z, 1, tt)]
              eq_refl) as (_ & Ht & _).
  exact Ht.
Defined.

Lemma preclipped_reward_equivalent_witness :
  clip_reward ConstModel.cfg = true /\
  act_and_train ConstModel.cfg 0%Z (np_clip 5 (-1) 1) tt ConstModel.fresh
  = act_and_train ConstModel.cfg 0%Z 5 tt ConstModel.fresh.
Proof.
  split; [reflexivity|].
  destruct (preclipped_reward_equivalent ConstModel.cfg 0%Z 5 tt true
              ConstModel.fresh eq_refl) as [Hact _].
  exact Hact.
Defined.

Lemma act_calls_do_not_disturb_witness :
  snd (run ConstModel.cfg
         (without_act [Act 0%Z tt; ActAndTrain 0%Z 1 tt; Act 0%Z tt])
         ConstModel.fresh)
  = snd (run ConstModel.cfg [Act 0%Z tt; ActAndTrain 0%Z 1 tt; Act 0%Z tt]
           ConstModel.fresh).
Proof.
  destruct (act_calls_do_not_disturb ConstModel.cfg
              [Act 0%Z tt; ActAndTrain 0%Z 1 tt; Act 0%Z tt]
              ConstModel.fresh) as (_ & _ & Hs);
    [intros m o; reflexivity|exact Hs].
Defined.

Lemma stop_twice_fails_witness :
  reachable ConstModel.cfg ConstModel.fresh /\
  fst (stop_episode_and_train ConstModel.cfg 0%Z 1 true
         (snd (stop_episode_and_train ConstModel.cfg 0%Z 1 true
                 ConstModel.fresh)))
  = Raise AssertionError.
Proof.
  split; [apply reachable_init|].
  destruct (stop_twice_fails ConstModel.cfg 0%Z 0%Z 1 1 true true
              ConstModel.fresh (reachable_init ConstModel.cfg tt))
    as [_ Hfail].
  rewrite Hfail. reflexivity.
Defined.

Lemma failed_stop_is_harmless_witness :
  t ConstModel.fresh = t_start ConstModel.fresh /\
  fst (run ConstModel.cfg [ActAndTrain 0%Z 1 tt]
         (snd (stop_episode_and_train ConstModel.cfg 0%Z 5 true
                 ConstModel.fresh)))
  = fst (run ConstModel.cfg [ActAndTrain 0%Z 1 tt] ConstModel.fresh).
Proof.
  split; [reflexivity|].
  destruct (failed_stop_is_harmless ConstModel.cfg 0%Z 5 true
              [ActAndTrain 0%Z 1 tt] ConstModel.fresh eq_refl)
    as (_ & Hrun & _).
  exact Hrun.
Defined.

Lemma short_episode_single_update_witness :
  reachable ConstModel.cfg ConstModel.fresh /\
  t ConstModel.fresh = t_start ConstModel.fresh /\
  exists rs u s',
    run ConstModel.cfg
      (train_calls [(0%Z, 1, tt); (0%Z, 1, tt)]
       ++ [StopEpisodeAndTrain 0%Z 1 true])
      ConstModel.fresh
    = (rs ++ [Ok {| ev_action := None; ev_update := Some u |}], s') /\
    t_start s' = t s'.
Proof.
  split; [apply reachable_init|]. split; [reflexivity|].
  destruct (short_episode_single_update ConstModel.cfg
              [(0%Z, 1, tt); (0%Z, 1, tt)] 0%Z 1 true ConstModel.fresh
              (reachable_init ConstModel.cfg tt) eq_refl
              ltac:(vm_compute; split; discriminate))
    as (rs & u & s' & Hrun & _ & _ & _ & _ & Hts).
  exists rs, u, s'. split; [exact Hrun|exact Hts].
Defined.
